(** * Design-pattern demos (Prototype, Singleton, Proxy): a shallow embedding

    The repository holds three independent JavaScript scripts.  Each one is
    embedded below as a module of executable definitions:

    - [JS]: the fragment of the object model the scripts rely on (ordinary
      objects with own data properties, a prototype reference, the
      extensible flag, [Object.freeze], property read and assignment,
      and [Object.prototype] with its native members, the [__proto__]
      accessor among them);
    - [Prototype]: the Dog / SuperDog / Object.create script;
    - [Singleton]: the Counter script, with its two module-level variables;
    - [Proxy]: the person object and its three proxies.

    The scripts carry neither a "use strict" directive nor import/export
    syntax, so their top-level code runs in sloppy mode; the assignment
    operations take the mode as a parameter and the scripts pass [false]. *)

From stdpp Require Import gmap strings list pretty.

Local Open Scope string_scope.
Local Open Scope Z_scope.
Local Open Scope list_scope.

(** ** The object model *)

Module JS.

(** Objects live in an arena; a reference is an index into it. *)
Abbreviation loc := nat.

(** The native members of [Object.prototype]: the function [Object]
    (its [constructor]), ten methods, and the accessor [__proto__]. *)
Inductive native : Type :=
| Object_function
| N_defineGetter
| N_defineSetter
| N_hasOwnProperty
| N_lookupGetter
| N_lookupSetter
| N_isPrototypeOf
| N_propertyIsEnumerable
| N_toString
| N_valueOf
| N_proto
| N_toLocaleString.

#[global] Instance native_eq_dec : EqDecision native.
Proof. solve_decision. Defined.

(** Values.  [F] names the function bodies of the script at hand; a
    function, native or not, is used as a value only: it is no object of
    the arena and its own properties are not modelled.  [VNum] holds an
    integer-valued Number. *)
Inductive value {F : Type} : Type :=
| VUndef
| VNull
| VBool (b : bool)
| VNum (n : Z)
| VStr (s : string)
| VFun (f : F)
| VObj (l : loc)
| VNative (n : native).
Arguments value : clear implicits.

Inductive error : Type :=
| TypeError (msg : string)
| Error (msg : string)
| RangeError (msg : string).

(** How a call or a statement completes. *)
Inductive outcome (A : Type) : Type :=
| Return (a : A)
| Throw (e : error).
Arguments Return {A} a.
Arguments Throw {A} e.


(** An ordinary object.  Its members are data properties, but for the
    one accessor there is: a member [__proto__] that holds [VNative
    N_proto] stands for the accessor of [Object.prototype].  The scripts
    change property attributes only through [Object.freeze], which acts
    on all own properties at once and forbids later additions, so one
    [writable] flag per object records them. *)
Record obj {F : Type} : Type := Obj {
  props : gmap string (value F);
  proto : option loc;
  extensible : bool;
  writable : bool
}.
Arguments obj : clear implicits.
Arguments Obj {F} props proto extensible writable.

Section Core.
Context {F : Type}.

Abbreviation heap := (list (obj F)).

(** [Object.prototype] is the first object of every arena. *)
Definition root : loc := 0%nat.

(** The own members of [Object.prototype]. *)
Definition Object_prototype_members : gmap string (value F) :=
  {[ "constructor" := VNative Object_function;
     "__defineGetter__" := VNative N_defineGetter;
     "__defineSetter__" := VNative N_defineSetter;
     "hasOwnProperty" := VNative N_hasOwnProperty;
     "__lookupGetter__" := VNative N_lookupGetter;
     "__lookupSetter__" := VNative N_lookupSetter;
     "isPrototypeOf" := VNative N_isPrototypeOf;
     "propertyIsEnumerable" := VNative N_propertyIsEnumerable;
     "toString" := VNative N_toString;
     "valueOf" := VNative N_valueOf;
     "__proto__" := VNative N_proto;
     "toLocaleString" := VNative N_toLocaleString ]}.

(** A fresh ordinary object, as an object literal, [new] or
    [Object.create] produces. *)
Definition fresh_obj (own : gmap string (value F)) (p : option loc) : obj F :=
  Obj own p true true.

Definition alloc (o : obj F) (h : heap) : loc * heap :=
  (length h, h ++ [o]).

(** [Object.freeze(l)]. *)
Definition freeze_obj (o : obj F) : obj F :=
  Obj (props o) (proto o) false false.

Definition freeze (l : loc) (h : heap) : heap :=
  match h !! l with
  | Some o => <[l := freeze_obj o]> h
  | None => h
  end.

(** Property lookup along the prototype chain, [n] steps at most.
    [None]: the walk did not end within [n] steps or met a dangling
    reference; [Some None]: the chain is exhausted; [Some (Some v)]:
    the first object of the chain that owns [k] holds [v]. *)
Fixpoint lookup_from (n : nat) (h : heap) (l : loc) (k : string)
  : option (option (value F)) :=
  match n with
  | O => None
  | S n' =>
      match h !! l with
      | None => None
      | Some o =>
          match props o !! k with
          | Some v => Some (Some v)
          | None =>
              match proto o with
              | None => Some None
              | Some p => lookup_from n' h p k
              end
          end
      end
  end.

(** A chain without a cycle visits every object at most once, so this
    many steps are enough for any walk that ends. *)
Definition depth (h : heap) : nat := S (length h).

(** Arenas built by allocation alone: a prototype is older than the
    objects that delegate to it. *)
Definition older_proto (l : loc) (o : obj F) : bool :=
  match proto o with
  | None => true
  | Some p => (p <? l)%nat
  end.

Fixpoint ordered_from (i : nat) (h : heap) : bool :=
  match h with
  | [] => true
  | o :: h' => older_proto i o && ordered_from (S i) h'
  end.

Definition orderedb (h : heap) : bool := ordered_from 0 h.

Definition lookup_prop (h : heap) (l : loc) (k : string)
  : option (option (value F)) :=
  lookup_from (depth h) h l k.

(** Whether the member found under [k] is the [__proto__] accessor. *)
Definition is_accessor (k : string) (v : value F) : bool :=
  String.eqb k "__proto__" &&
  match v with
  | VNative N_proto => true
  | _ => false
  end.

(** What the getter of [__proto__] returns on [l]: its prototype. *)
Definition prototype_of (h : heap) (l : loc) : value F :=
  match h !! l with
  | Some o =>
      match proto o with
      | Some p => VObj p
      | None => VNull
      end
  | None => VUndef
  end.

(** [o[k]]: an absent property reads as [undefined]; the accessor
    [__proto__], where the walk finds it, reads the prototype of the
    object the walk started from. *)
Definition Get (h : heap) (l : loc) (k : string) : option (value F) :=
  match lookup_prop h l k with
  | None => None
  | Some None => Some VUndef
  | Some (Some v) => Some (if is_accessor k v then prototype_of h l else v)
  end.

(** Whether the definition of [k] found from [l] upwards may be
    written; no definition at all counts as writable. *)
Fixpoint writable_from (n : nat) (h : heap) (l : loc) (k : string)
  : option bool :=
  match n with
  | O => None
  | S n' =>
      match h !! l with
      | None => None
      | Some o =>
          match props o !! k with
          | Some _ => Some (writable o)
          | None =>
              match proto o with
              | None => Some true
              | Some p => writable_from n' h p k
              end
          end
      end
  end.

Definition set_own (k : string) (v : value F) (o : obj F) : obj F :=
  Obj (<[k := v]> (props o)) (proto o) (extensible o) (writable o).

Definition set_proto (np : option loc) (o : obj F) : obj F :=
  Obj (props o) np (extensible o) (writable o).

(** Whether the walk from [b] meets [a] ([b] itself counts). *)
Fixpoint reaches (n : nat) (h : heap) (b a : loc) : bool :=
  match n with
  | O => false
  | S n' =>
      (b =? a)%nat ||
      match h !! b with
      | Some o =>
          match proto o with
          | Some p => reaches n' h p a
          | None => false
          end
      | None => false
      end
  end.

(** Whether the walk from [b] meets [p] before any object that owns
    [k]. *)
Fixpoint inherits (n : nat) (h : heap) (b p : loc) (k : string) : bool :=
  match n with
  | O => false
  | S n' =>
      if (b =? p)%nat then true
      else match h !! b with
           | Some o =>
               match props o !! k with
               | Some _ => false
               | None =>
                   match proto o with
                   | Some q => inherits n' h q p k
                   | None => false
                   end
               end
           | None => false
           end
  end.

(** The [[Set]] of an ordinary object on a data property it finds or
    creates, the receiver being the object itself. *)
Definition Put_data (h : heap) (l : loc) (k : string) (v : value F)
  : option (bool * heap) :=
  w ← writable_from (depth h) h l k;
  o ← h !! l;
  if negb w then Some (false, h)
  else match props o !! k with
       | Some _ =>
           if writable o then Some (true, <[l := set_own k v o]> h)
           else Some (false, h)
       | None =>
           if extensible o then Some (true, <[l := set_own k v o]> h)
           else Some (false, h)
       end.

(** [[SetPrototypeOf]]: nothing to do when the prototype is the one
    asked for; refused on an object that is not extensible, on
    [Object.prototype], whose prototype cannot change, and when the new
    chain would come back to the object. *)
Definition Put_proto (h : heap) (l : loc) (o : obj F) (np : option loc)
  : bool * heap :=
  if decide (proto o = np) then (true, h)
  else if negb (extensible o) || (l =? root)%nat then (false, h)
  else if match np with
          | Some q => reaches (depth h) h q l
          | None => false
          end
       then (false, h)
       else (true, <[l := set_proto np o]> h).

(** The setter of [__proto__] on [l]: an object or null becomes the
    prototype, any other primitive is ignored.  A function would become
    the prototype too; functions being no objects of the arena, that is
    outside the model ([None]) unless the change is refused anyway. *)
Definition Put_accessor (h : heap) (l : loc) (o : obj F) (v : value F)
  : option (bool * heap) :=
  match v with
  | VObj q => Some (Put_proto h l o (Some q))
  | VNull => Some (Put_proto h l o None)
  | VFun _ | VNative _ =>
      if negb (extensible o) || (l =? root)%nat then Some (false, h) else None
  | _ => Some (true, h)
  end.

(** The [[Set]] of an ordinary object, the receiver being the object
    itself.  The boolean tells whether the assignment went through; when
    the walk meets the accessor, [false] stands for the TypeError its
    setter throws. *)
Definition Put (h : heap) (l : loc) (k : string) (v : value F)
  : option (bool * heap) :=
  r ← lookup_prop h l k;
  o ← h !! l;
  match r with
  | Some v' =>
      if is_accessor k v' then Put_accessor h l o v else Put_data h l k v
  | None => Put_data h l k v
  end.

Definition meets_accessor (h : heap) (l : loc) (k : string) : bool :=
  match lookup_prop h l k with
  | Some (Some v') => is_accessor k v'
  | _ => false
  end.

(** The statement [o.k = v].  A refused write is a TypeError in strict
    code and is dropped silently in sloppy code; the setter of
    [__proto__] throws its TypeError in either. *)
Definition assign (strict : bool) (h : heap) (l : loc) (k : string)
  (v : value F) : option (outcome unit * heap) :=
  match Put h l k v with
  | None => None
  | Some (ok, h') =>
      Some (if ok then Return tt
            else if strict || meets_accessor h l k
                 then Throw (TypeError ("Cannot assign to read only property " +:+ k))
                 else Return tt,
            h')
  end.

(** A native method of [Object.prototype] called on [this] without
    arguments ([toLocaleString], which calls [this.toString()], is left
    to the script's [invoke]).  [hasOwnProperty] and [propertyIsEnumerable]
    are then asked about the key [undefined]; whether an own member is
    enumerable is outside the model. *)
Definition native_call (n : native) (this : loc) (h : heap)
  : option (outcome (value F) * heap) :=
  match n with
  | Object_function =>
      Some (Return (VObj (length h)), h ++ [fresh_obj ∅ (Some root)])
  | N_toString => Some (Return (VStr "[object Object]"), h)
  | N_valueOf => Some (Return (VObj this), h)
  | N_hasOwnProperty =>
      o ← h !! this;
      Some (Return (VBool (bool_decide (is_Some (props o !! "undefined")))), h)
  | N_isPrototypeOf => Some (Return (VBool false), h)
  | N_propertyIsEnumerable =>
      o ← h !! this;
      match props o !! "undefined" with
      | None => Some (Return (VBool false), h)
      | Some _ => None
      end
  | N_defineGetter =>
      Some (Throw (TypeError "Object.prototype.__defineGetter__: Expecting function"), h)
  | N_defineSetter =>
      Some (Throw (TypeError "Object.prototype.__defineSetter__: Expecting function"), h)
  | N_lookupGetter | N_lookupSetter =>
      _ ← lookup_prop h this "undefined";
      Some (Return VUndef, h)
  | N_proto => Some (Return (prototype_of h this), h)
  | N_toLocaleString => None
  end.

End Core.


(** Member lookup as the spec words it (section 4.1): own data first,
    then the behaviour table the object delegates to, then that table's
    parent, until the member is found or the chain is exhausted. *)
Inductive resolves {F : Type} (h : list (obj F)) (k : string)
  : loc → option (value F) → Prop :=
| resolves_own l o v :
    h !! l = Some o → props o !! k = Some v → resolves h k l (Some v)
| resolves_exhausted l o :
    h !! l = Some o → props o !! k = None → proto o = None →
    resolves h k l None
| resolves_delegate l o p r :
    h !! l = Some o → props o !! k = None → proto o = Some p →
    resolves h k p r → resolves h k l r.

(** What [orderedb] decides. *)
Definition ordered {F : Type} (h : list (obj F)) : Prop :=
  ∀ l o p, h !! l = Some o → proto o = Some p → (p < l)%nat.

(** Script code threads a state and may throw; [None] stands for a walk
    that did not end (see [lookup_from]). *)
Definition M (S A : Type) : Type := S → option (outcome A * S).

Definition ret {S A : Type} (a : A) : M S A :=
  λ s, Some (Return a, s).

Definition throw {S A : Type} (e : error) : M S A :=
  λ s, Some (Throw e, s).

Definition bind {S A B : Type} (m : M S A) (f : A → M S B) : M S B :=
  λ s, match m s with
       | None => None
       | Some (Return a, s') => f a s'
       | Some (Throw e, s') => Some (Throw e, s')
       end.

Declare Scope js_scope.
Delimit Scope js_scope with js.
Notation "'let*' x ':=' m 'in' k" := (bind m (λ x, k))
  (at level 10, x pattern, m at level 100, k at level 200) : js_scope.
Notation "m ';;;' k" := (bind m (λ _, k))
  (at level 100, k at level 200, right associativity) : js_scope.

End JS.

(** ** Prototype script *)

Module Prototype.
Import JS.

(** The functions of the script: the [bark] methods of classes [Dog] and
    [Dog1], the arrow function stored as [play], [fly] of [SuperDog],
    [bark] of the object literal [dog], and the three classes themselves,
    which their behaviour tables hold as [constructor]. *)
Inductive func : Type :=
| Dog_bark
| Dog1_bark
| play
| SuperDog_fly
| dog_bark
| Dog_class
| Dog1_class
| SuperDog_class.


Abbreviation value := (JS.value func).
Abbreviation obj := (JS.obj func).

Record state : Type := State {
  heap : list obj;
  console : list string
}.

Definition console_log (msg : string) (s : state) : state :=
  State (heap s) (console s ++ [msg]).

(** Calling a function without [new].  None of the method bodies reads
    [this] or an argument; a class called so throws. *)
Definition call (f : func) (s : state) : outcome value * state :=
  match f with
  | Dog_bark => (Return (VStr "Woof!"), s)
  | Dog1_bark => (Return (VStr "Woof!"), s)
  | play => (Return VUndef, console_log "Playing now!" s)
  | SuperDog_fly => (Return VUndef, console_log "Flying!" s)
  | dog_bark => (Return VUndef, console_log "Woof!" s)
  | Dog_class | Dog1_class | SuperDog_class =>
      (Throw (TypeError "Class constructor cannot be invoked without 'new'"), s)
  end.

Definition with_heap (s : state) (r : option (outcome value * list obj))
  : option (outcome value * state) :=
  match r with
  | None => None
  | Some (res, h) => Some (res, State h (console s))
  end.

(** A native method called on [this]: [toLocaleString] calls
    [this.toString()], without end when that is [toLocaleString] again
    (the engine then gives up with a RangeError). *)
Definition call_native (n : native) (this : loc) : M state value :=
  λ s, match n with
       | N_toLocaleString =>
           match Get (heap s) this "toString" with
           | None => None
           | Some (VFun f) => Some (call f s)
           | Some (VNative N_toLocaleString) =>
               Some (Throw (RangeError "Maximum call stack size exceeded"), s)
           | Some (VNative n') => with_heap s (native_call n' this (heap s))
           | Some _ => Some (Throw (TypeError "toString is not a function"), s)
           end
       | _ => with_heap s (native_call n this (heap s))
       end.

(** [o.k()]: read the member, then call it; a member that is not a
    function, missing or not, makes the call a TypeError (the engine's
    message names the expression; the member name stands for it here). *)
Definition invoke (l : loc) (k : string) : M state value :=
  λ s, match Get (heap s) l k with
       | None => None
       | Some (VFun f) => Some (call f s)
       | Some (VNative n) => call_native n l s
       | Some _ => Some (Throw (TypeError (k +:+ " is not a function")), s)
       end.

(** The statement [o.k = v], in strict or in sloppy code. *)
Definition set_member (strict : bool) (l : loc) (k : string) (v : value)
  : M state unit :=
  λ s, match assign strict (heap s) l k v with
       | None => None
       | Some (r, h) => Some (r, State h (console s))
       end.

Definition allocate (o : obj) : M state loc :=
  λ s, let '(l, h) := alloc o (heap s) in Some (Return l, State h (console s)).

(** A class declaration creates the prototype object holding the
    methods and, as [constructor], the class; [extends] links it to the
    parent's prototype. *)
Definition class_decl (class : func) (parent : loc)
  (methods : gmap string value) : M state loc :=
  allocate (fresh_obj (<["constructor" := VFun class]> methods) (Some parent)).

(** [constructor(name) { this.name = name; }]; class bodies are strict. *)
Definition Dog_constructor (this : loc) (name : value) : M state unit :=
  set_member true this "name" name.

(** [constructor(name) { super(name); }] *)
Definition SuperDog_constructor (this : loc) (name : value) : M state unit :=
  Dog_constructor this name.

(** [new C(name)] for a class whose prototype object is [p]. *)
Definition new (p : loc) (ctor : loc → value → M state unit) (name : value)
  : M state loc :=
  (let* this := allocate (fresh_obj ∅ (Some p)) in
   ctor this name;;;
   ret this)%js.

(** [Object.create(p)] *)
Definition Object_create (p : loc) : M state loc :=
  allocate (fresh_obj ∅ (Some p)).

(** The objects the script names. *)
Record names : Type := Names {
  Dog_prototype : loc;
  dog1 : loc; dog2 : loc; dog3 : loc;
  Dog1_prototype : loc;
  dog4 : loc; dog5 : loc; dog6 : loc;
  SuperDog_prototype : loc;
  dog7 : loc;
  dog : loc;
  pet1 : loc
}.

Definition Object_prototype : loc := 0%nat.

(** Before the script runs the arena holds [Object.prototype] alone. *)
Definition initial : state :=
  State [fresh_obj Object_prototype_members None] [].

(** Lines 15-72: the classes [Dog] and [Dog1] and six dogs.  (The two
    [console.log] calls of lines 35-36 print an object inspection and
    are left out.) *)
Definition script_dogs : M state (loc * (loc * loc * loc) * loc * (loc * loc * loc)) :=
  (let* Dogp := class_decl Dog_class Object_prototype {["bark" := VFun Dog_bark]} in
   let* d1 := new Dogp Dog_constructor (VStr "Daisy") in
   let* d2 := new Dogp Dog_constructor (VStr "Max") in
   let* d3 := new Dogp Dog_constructor (VStr "Spot") in
   let* Dog1p := class_decl Dog1_class Object_prototype {["bark" := VFun Dog1_bark]} in
   let* d4 := new Dogp Dog_constructor (VStr "Daisy") in
   let* d5 := new Dogp Dog_constructor (VStr "Max") in
   let* d6 := new Dogp Dog_constructor (VStr "Spot") in
   ret (Dogp, (d1, d2, d3), Dog1p, (d4, d5, d6)))%js.

(** Lines 74-131. *)
Definition script : M state names :=
  (let* (Dogp, (d1, d2, d3), Dog1p, (d4, d5, d6)) := script_dogs in
   set_member false Dogp "play" (VFun play);;;
   invoke d4 "play";;;
   let* SuperDogp := class_decl SuperDog_class Dogp {["fly" := VFun SuperDog_fly]} in
   let* d7 := new SuperDogp SuperDog_constructor (VStr "Daisy") in
   invoke d7 "bark";;;
   invoke d7 "fly";;;
   let* d := allocate (fresh_obj {["bark" := VFun dog_bark]} (Some Object_prototype)) in
   let* p1 := Object_create d in
   invoke p1 "bark";;;
   ret (Names Dogp d1 d2 d3 Dog1p d4 d5 d6 SuperDogp d7 d p1))%js.

Definition state_after {A : Type} (m : M state A) : state :=
  match m initial with
  | Some (_, s) => s
  | None => initial
  end.

(** The arena once line 72 has run, and at the end of the script. *)
Definition dogs_state : state := state_after script_dogs.
Definition final_state : state := state_after script.

(** The references the script binds its names to. *)
Definition named : names := Names 1 2 3 4 5 6 7 8 9 10 11 12.

(** The arena once line 74 has run. *)
Definition play_state : state :=
  state_after (let* (Dogp, _, _, _) := script_dogs in
               set_member false Dogp "play" (VFun play))%js.

(** What line 74 would do with the member name [name], which every dog
    holds as own data, followed by [dog4.name()]. *)
Definition shadowing_demo : M state value :=
  (let* (Dogp, _, _, (d4, _, _)) := script_dogs in
   set_member false Dogp "name" (VFun play);;;
   invoke d4 "name")%js.

(** The arena after the script and [Dog.prototype.fetch = ...], the arrow
    function of line 74 being stored once more under another name. *)
Definition fetch_state : state :=
  state_after (let* n := script in
               set_member false (Dog_prototype n) "fetch" (VFun play))%js.

End Prototype.

(** ** Singleton script *)

Module Singleton.
Import JS.

(** A Number is an IEEE double.  On integers, the result of an
    arithmetic operation is the nearest double, ties going to the even
    significand (53 bits); below 2^53 in magnitude every integer is a
    double.  (Overflow to Infinity, beyond 2^1024, is out of reach of a
    counter that moves by one.) *)
Definition round_double (z : Z) : Z :=
  let a := Z.abs z in
  if a <? 2 ^ 53 then z
  else
    let e := Z.log2 a - 52 in
    let q := a / 2 ^ e in
    let r := a mod 2 ^ e in
    let half := 2 ^ (e - 1) in
    let up := (half <? r) || ((half =? r) && Z.odd q) in
    Z.sgn z * ((if up then q + 1 else q) * 2 ^ e).

Definition max_counter : Z := 2 ^ 53.

(** The functions of the script: the three methods of class [Counter],
    the arrow function of line 177, the two methods of the object literal
    [newCounter], and the class, which its behaviour table holds as
    [constructor]. *)
Inductive func : Type :=
| Counter_getCounte
| Counter_increment
| Counter_decrement
| replacement_decrement
| newCounter_increment
| newCounter_descrement
| Counter_class.

Abbreviation value := (JS.value func).
Abbreviation obj := (JS.obj func).

(** The arena, the module-level variables [instance] (undefined until
    the constructor has run), [counter] and [count], and the console. *)
Record state : Type := State {
  heap : list obj;
  instance : option loc;
  counter : Z;
  count : Z;
  console : list string
}.

Definition set_heap (h : list obj) (s : state) : state :=
  State h (instance s) (counter s) (count s) (console s).
Definition set_instance (i : option loc) (s : state) : state :=
  State (heap s) i (counter s) (count s) (console s).
Definition set_counter (c : Z) (s : state) : state :=
  State (heap s) (instance s) c (count s) (console s).
Definition set_count (c : Z) (s : state) : state :=
  State (heap s) (instance s) (counter s) c (console s).
Definition console_log (msg : string) (s : state) : state :=
  State (heap s) (instance s) (counter s) (count s) (console s ++ [msg]).

(** Calling a function without [new].  None of the method bodies reads
    [this] or an argument; the class called so throws. *)
Definition call (f : func) (s : state) : outcome value * state :=
  match f with
  | Counter_class =>
      (Throw (TypeError "Class constructor cannot be invoked without 'new'"), s)
  | Counter_getCounte => (Return (VNum (counter s)), s)
  | Counter_increment =>
      let c := round_double (counter s + 1) in
      (Return (VNum c), set_counter c s)
  | Counter_decrement =>
      let c := round_double (counter s - 1) in
      (Return (VNum c), set_counter c s)
  | replacement_decrement =>
      (Return VUndef, console_log "decrement function called" s)
  | newCounter_increment =>
      let c := round_double (count s + 1) in
      (Return (VNum c), set_count c s)
  | newCounter_descrement =>
      let c := round_double (count s - 1) in
      (Return (VNum c), set_count c s)
  end.

Definition with_heap (s : state) (r : option (outcome value * list obj))
  : option (outcome value * state) :=
  match r with
  | None => None
  | Some (res, h) => Some (res, set_heap h s)
  end.

(** A native method called on [this]: [toLocaleString] calls
    [this.toString()], without end when that is [toLocaleString] again
    (the engine then gives up with a RangeError). *)
Definition call_native (n : native) (this : loc) : M state value :=
  λ s, match n with
       | N_toLocaleString =>
           match Get (heap s) this "toString" with
           | None => None
           | Some (VFun f) => Some (call f s)
           | Some (VNative N_toLocaleString) =>
               Some (Throw (RangeError "Maximum call stack size exceeded"), s)
           | Some (VNative n') => with_heap s (native_call n' this (heap s))
           | Some _ => Some (Throw (TypeError "toString is not a function"), s)
           end
       | _ => with_heap s (native_call n this (heap s))
       end.

Definition invoke (l : loc) (k : string) : M state value :=
  λ s, match Get (heap s) l k with
       | None => None
       | Some (VFun f) => Some (call f s)
       | Some (VNative n) => call_native n l s
       | Some _ => Some (Throw (TypeError (k +:+ " is not a function")), s)
       end.

Definition set_member (strict : bool) (l : loc) (k : string) (v : value)
  : M state unit :=
  λ s, match assign strict (heap s) l k v with
       | None => None
       | Some (r, h) => Some (r, set_heap h s)
       end.

Definition allocate (o : obj) : M state loc :=
  λ s, let '(l, h) := alloc o (heap s) in Some (Return l, set_heap h s).

Definition class_decl (parent : loc) (methods : gmap string value)
  : M state loc :=
  allocate (fresh_obj methods (Some parent)).

Definition SingletonViolation : error :=
  Error "You can only create one instance!".

(** [constructor() { if (instance) throw ...; instance = this; }]
    [instance] is undefined or an object, and every object is truthy. *)
Definition Counter_constructor (this : loc) : M state unit :=
  λ s, match instance s with
       | Some _ => Some (Throw SingletonViolation, s)
       | None => Some (Return tt, set_instance (Some this) s)
       end.

(** [new Counter()]: the object is created first, then the constructor
    body runs on it. *)
Definition new_Counter (Counter_prototype : loc) : M state loc :=
  (let* this := allocate (fresh_obj ∅ (Some Counter_prototype)) in
   Counter_constructor this;;;
   ret this)%js.

(** [Object.freeze(l)] returns its argument. *)
Definition Object_freeze (l : loc) : M state loc :=
  λ s, Some (Return l, set_heap (freeze l (heap s)) s).

Record names : Type := Names {
  Counter_prototype : loc;
  singletonCounter : loc;
  newCounter : loc
}.

Definition Object_prototype : loc := 0%nat.

Definition initial : state :=
  State [fresh_obj Object_prototype_members None] None 0 0 [].

(** The members of [Counter.prototype]: the class as [constructor] and
    the three methods. *)
Definition Counter_methods : gmap string value :=
  {[ "constructor" := VFun Counter_class;
     "getCounte" := VFun Counter_getCounte;
     "increment" := VFun Counter_increment;
     "decrement" := VFun Counter_decrement ]}.

(** Lines 139-175: the class and the frozen handle. *)
Definition script_handle : M state (loc * loc) :=
  (let* Counterp := class_decl Object_prototype Counter_methods in
   let* c := new_Counter Counterp in
   let* sc := Object_freeze c in
   ret (Counterp, sc))%js.

(** Lines 177-239. *)
Definition script : M state names :=
  (let* (Counterp, sc) := script_handle in
   set_member false sc "decrement" (VFun replacement_decrement);;;
   invoke sc "decrement";;;
   let* nc := allocate (fresh_obj {[ "increment" := VFun newCounter_increment;
                                    "descrement" := VFun newCounter_descrement ]}
                                  (Some Object_prototype)) in
   Object_freeze nc;;;
   ret (Names Counterp sc nc))%js.

(** What a client of the module can do once the script has run. *)
Inductive op : Type :=
| OpNew
| OpInvoke (k : string)
| OpAssign (k : string) (v : value)
| OpFreeze.

(** One client step on the handle [sc]; an exception it throws is caught
    by the client and the state it leaves behind is kept. *)
Definition step (Counterp sc : loc) (o : op) (s : state) : option state :=
  match o with
  | OpNew => snd <$> new_Counter Counterp s
  | OpInvoke k => snd <$> invoke sc k s
  | OpAssign k v => snd <$> set_member false sc k v s
  | OpFreeze => snd <$> Object_freeze sc s
  end.

Fixpoint steps (Counterp sc : loc) (os : list op) (s : state) : option state :=
  match os with
  | [] => Some s
  | o :: os' =>
      match step Counterp sc o s with
      | None => None
      | Some s' => steps Counterp sc os' s'
      end
  end.

(** [n] calls of [increment] in a row. *)
Definition increments (n : N) (s : state) : state :=
  N.iter n (λ s, snd (call Counter_increment s)) s.

Definition state_after {A : Type} (m : M state A) : state :=
  match m initial with
  | Some (_, s) => s
  | None => initial
  end.

(** The state once line 175 has run, and at the end of the script. *)
Definition handle_state : state := state_after script_handle.
Definition final_state : state := state_after script.

(** The references the script binds its names to. *)
Definition named : names := Names 1 2 3.

(** The state a client reaches by 2^53 + 1 calls of [increment] once the
    script, which leaves the counter at -1, has run. *)
Definition saturated : state :=
  increments (Z.to_N (max_counter + 1)) final_state.

(** What holds of the module from line 175 on, whatever a client does
    through the handle [sc]: [instance] is the frozen, empty handle,
    which delegates to [Counter.prototype] with the class's members, and
    the counter is an integer no larger than 2^53 in magnitude. *)
Record handle_world (Counterp sc : loc) (s : state) : Prop := HandleWorld {
  world_ordered : orderedb (heap s) = true;
  world_instance : instance s = Some sc;
  world_handle : heap s !! sc = Some (Obj ∅ (Some Counterp) false false);
  world_class :
    heap s !! Counterp = Some (fresh_obj Counter_methods (Some Object_prototype));
  world_counter : - max_counter ≤ counter s ≤ max_counter
}.

(** A run of presses on the counter through the handle: [true] calls
    [increment], [false] calls [decrement]. *)
Definition presses (bs : list bool) : list op :=
  map (λ b : bool, OpInvoke (if b then "increment" else "decrement")) bs.

(** Increments minus decrements. *)
Fixpoint net (bs : list bool) : Z :=
  match bs with
  | [] => 0
  | b :: bs' => (if b then 1 else -1) + net bs'
  end.

(** Lines 229-237 *)
Definition newCounter_methods : gmap string value :=
  {[ "increment" := VFun newCounter_increment;
     "descrement" := VFun newCounter_descrement ]}.

(** What holds of [newCounter] from line 239 on: it is the frozen object
    literal with its two methods, delegating to [Object.prototype], and
    [count] is an integer no larger than 2^53 in magnitude. *)
Record newCounter_world (nc : loc) (s : state) : Prop := NewCounterWorld {
  nc_ordered : orderedb (heap s) = true;
  nc_object :
    heap s !! nc = Some (Obj newCounter_methods (Some Object_prototype) false false);
  nc_root :
    heap s !! Object_prototype = Some (fresh_obj Object_prototype_members None);
  nc_count : - max_counter ≤ count s ≤ max_counter
}.

(** The state once [Counter.prototype.decrement] has been given the arrow
    function of line 177, after the script. *)
Definition patched_state : state :=
  state_after (let* n := script in
               set_member false (Counter_prototype n) "decrement"
                 (VFun replacement_decrement))%js.

End Singleton.

(** ** Proxy script *)

Module Proxy.
Import JS.

(** The values [person] holds or inherits and those written to it:
    primitives, the native functions it inherits from [Object.prototype]
    and [Object.prototype] itself, which its [__proto__] reads.  [PNum n]
    is the integer-valued Number nearest to [n], as the literal [n] is. *)
Inductive prim : Type :=
| PUndef
| PNull
| PBool (b : bool)
| PNum (n : Z)
| PNaN
| PStr (s : string)
| PNative (n : native)
| PObjectPrototype.

(** *** Number to string *)

Definition digits (a : Z) : Z := Z.of_nat (String.length (pretty a)).

(** The decimal with the fewest significant digits that rounds to the
    Number [a] (the nearest to [a] if several have that few digits, the
    even one on a tie), tried with [k], [k + 1], ... digits. *)
Fixpoint shortest_from (fuel : nat) (k : Z) (a d : Z) : Z :=
  match fuel with
  | O => a
  | S fuel' =>
      let p := 10 ^ (d - k) in
      let lo := a / p * p in
      let hi := lo + p in
      let ok_lo := Singleton.round_double lo =? a in
      let ok_hi := Singleton.round_double hi =? a in
      if ok_lo && ok_hi
      then (if a - lo <? hi - a then lo
            else if hi - a <? a - lo then hi
            else if Z.even (lo / p) then lo else hi)
      else if ok_lo then lo
      else if ok_hi then hi
      else shortest_from fuel' (k + 1) a d
  end.

(** Seventeen significant digits tell any two Numbers apart. *)
Definition shortest (a : Z) : Z := shortest_from 17 1 a (digits a).

Fixpoint strip_zeros (fuel : nat) (v : Z) : Z :=
  match fuel with
  | O => v
  | S fuel' => if v mod 10 =? 0 then strip_zeros fuel' (v / 10) else v
  end.

(** [d.ddde+x] *)
Definition exponent_form (v : Z) : string :=
  let s := pretty (strip_zeros 400 v) in
  match s with
  | String c EmptyString => s
  | String c rest => String c ("." +:+ rest)
  | EmptyString => s
  end +:+ "e+" +:+ pretty (digits v - 1).

(** Number::toString on the Number nearest to [n]: the shortest digits
    that round to it, written in full up to 21 digits and with an
    exponent beyond; a magnitude of 2^1024 or more is Infinity. *)
Definition number_to_string (n : Z) : string :=
  let x := Singleton.round_double n in
  let a := Z.abs x in
  if a =? 0 then "0"
  else
    (if x <? 0 then "-" else EmptyString) +:+
    (if 2 ^ 1024 <=? a then "Infinity"
     else let v := shortest a in
          if digits v <=? 21 then pretty v else exponent_form v).

(** *** The native members *)

Definition native_name (n : native) : string :=
  match n with
  | Object_function => "Object"
  | N_defineGetter => "__defineGetter__"
  | N_defineSetter => "__defineSetter__"
  | N_hasOwnProperty => "hasOwnProperty"
  | N_lookupGetter => "__lookupGetter__"
  | N_lookupSetter => "__lookupSetter__"
  | N_isPrototypeOf => "isPrototypeOf"
  | N_propertyIsEnumerable => "propertyIsEnumerable"
  | N_toString => "toString"
  | N_valueOf => "valueOf"
  | N_proto => "get __proto__"
  | N_toLocaleString => "toLocaleString"
  end.

(** The [length] of a native function: the number of its parameters. *)
Definition native_length (n : native) : Z :=
  match n with
  | N_defineGetter | N_defineSetter => 2
  | Object_function | N_hasOwnProperty | N_lookupGetter | N_lookupSetter
  | N_isPrototypeOf | N_propertyIsEnumerable => 1
  | N_toString | N_valueOf | N_proto | N_toLocaleString => 0
  end.

(** What [person] inherits under [prop]: a native function, or, for
    [__proto__], what the accessor reads, [Object.prototype]. *)
Definition inherited (prop : string) : prim :=
  match @Object_prototype_members Empty_set !! prop with
  | Some (VNative N_proto) => PObjectPrototype
  | Some (VNative n) => PNative n
  | _ => PUndef
  end.

(** *** Conversions *)

(** ToString, as a template literal applies it (a native function prints
    as the engine of Node prints it). *)
Definition to_string (v : prim) : string :=
  match v with
  | PUndef => "undefined"
  | PNull => "null"
  | PBool true => "true"
  | PBool false => "false"
  | PNum n => number_to_string n
  | PNaN => "NaN"
  | PStr s => s
  | PNative n => "function " +:+ native_name n +:+ "() { [native code] }"
  | PObjectPrototype => "[object Object]"
  end.

(** ToBoolean. *)
Definition to_boolean (v : prim) : bool :=
  match v with
  | PUndef | PNull | PNaN => false
  | PBool b => b
  | PNum n => negb (n =? 0)
  | PStr s => negb (String.length s =? 0)%nat
  | PNative _ | PObjectPrototype => true
  end.

Definition typeof (v : prim) : string :=
  match v with
  | PUndef => "undefined"
  | PNull | PObjectPrototype => "object"
  | PBool _ => "boolean"
  | PNum _ | PNaN => "number"
  | PStr _ => "string"
  | PNative _ => "function"
  end.

(** The number of UTF-16 code units of a string, which the model holds as
    its UTF-8 bytes: one unit for a character of one, two or three bytes,
    two units for a character of four. *)
Fixpoint utf16_units (s : string) : nat :=
  match s with
  | EmptyString => O
  | String c s' =>
      let b := Ascii.nat_of_ascii c in
      if (b <? 128)%nat then S (utf16_units s')
      else if (b <? 192)%nat then utf16_units s'
      else if (b <? 240)%nat then S (utf16_units s')
      else match s' with
           | String _ s'' => S (S (utf16_units s''))
           | EmptyString => 1%nat
           end
  end.

(** [value.length]: a TypeError on undefined and null, the length of a
    string, the number of parameters of a function, undefined ([None])
    on the other values. *)
Definition length_of (v : prim) : outcome (option Z) :=
  match v with
  | PUndef =>
      Throw (TypeError "Cannot read properties of undefined (reading 'length')")
  | PNull =>
      Throw (TypeError "Cannot read properties of null (reading 'length')")
  | PStr s => Return (Some (Z.of_nat (utf16_units s)))
  | PNative n => Return (Some (native_length n))
  | _ => Return None
  end.

(** [x < 2] for such a length: undefined converts to NaN, which
    compares false. *)
Definition less_than_2 (x : option Z) : bool :=
  match x with
  | Some n => n <? 2
  | None => false
  end.

(** The target object [person], by its own members, and the console.
    Its prototype is [Object.prototype] throughout.  The three proxies
    wrap this one object. *)
Record state : Type := State {
  person : gmap string prim;
  console : list string
}.

Definition console_log (msg : string) : M state unit :=
  λ s, Some (Return tt, State (person s) (console s ++ [msg])).

(** The value of [obj[prop]]: an own member, or else what is inherited. *)
Definition member (s : state) (prop : string) : prim :=
  match person s !! prop with
  | Some v => v
  | None => inherited prop
  end.

(** [obj[prop]] *)
Definition read (prop : string) : M state prim :=
  λ s, Some (Return (member s prop), s).

(** [obj[prop] = value] on the plain, extensible target: the member is
    stored as an own member, unless the name is [__proto__] and reaches
    the inherited accessor.  Its setter ignores a primitive other than
    null and has nothing to do for [Object.prototype]; null or a function
    would take the place of the prototype, which is outside the model
    ([None]). *)
Definition write (prop : string) (v : prim) : M state unit :=
  λ s, if String.eqb prop "__proto__" &&
          negb (bool_decide (is_Some (person s !! prop)))
       then match v with
            | PNull | PNative _ => None
            | _ => Some (Return tt, s)
            end
       else Some (Return tt, State (<[prop := v]> (person s)) (console s)).

(** A handler: the optional [get] and [set] traps.  A trap gets the
    target, which is [person] for every proxy of the script. *)
Record handler : Type := Handler {
  get : option (string → M state prim);
  set : option (string → prim → M state prim)
}.

(** [proxy[prop]]: without a trap the target is read; with one, the
    trap's result is the result. *)
Definition proxy_get (h : handler) (prop : string) : M state prim :=
  match get h with
  | None => read prop
  | Some trap => trap prop
  end.

(** [proxy[prop] = value]: without a trap the target is written; with
    one, a falsy result of the trap is a TypeError in strict code and
    is ignored in sloppy code. *)
Definition proxy_set (strict : bool) (h : handler) (prop : string) (v : prim)
  : M state unit :=
  match set h with
  | None => write prop v
  | Some trap =>
      (let* r := trap prop v in
       if to_boolean r then ret tt
       else if strict
            then throw (TypeError ("'set' on proxy: trap returned falsish for property " +:+ prop))
            else ret tt)%js
  end.

(** Line 40: [new Proxy(person, {})] *)
Definition personProxy : handler := Handler None None.

(** Lines 52-54 *)
Definition personProxy1_get (prop : string) : M state prim :=
  (let* v := read prop in
   console_log ("The value of " +:+ prop +:+ " is " +:+ to_string v);;;
   ret PUndef)%js.

(** Lines 55-58 *)
Definition personProxy1_set (prop : string) (v : prim) : M state prim :=
  (let* old := read prop in
   console_log ("Changed " +:+ prop +:+ " from " +:+ to_string old +:+ " to " +:+ to_string v);;;
   write prop v;;;
   ret PUndef)%js.

Definition personProxy1 : handler :=
  Handler (Some personProxy1_get) (Some personProxy1_set).

(** Lines 70-76 *)
Definition personProxy2_get (prop : string) : M state prim :=
  (let* v := read prop in
   (if negb (to_boolean v)
    then console_log "This property dose't exist in objext"
    else console_log ("The value of " +:+ prop +:+ " is " +:+ to_string v));;;
   ret PUndef)%js.

Definition numeric_age_diagnostic : string :=
  "Sorry you can only pass numeric value for age".

(** Lines 78-87 *)
Definition personProxy2_set (prop : string) (v : prim) : M state prim :=
  (if String.eqb prop "age" && negb (String.eqb (typeof v) "number")
   then console_log numeric_age_diagnostic;;; ret PUndef
   else
     let* short :=
       (if String.eqb prop "name"
        then match length_of v with
             | Return n => ret (less_than_2 n)
             | Throw e => throw e
             end
        else ret false) in
     if (short : bool)
     then console_log "Invalid name ";;; ret PUndef
     else
       let* old := read prop in
       console_log ("Changed " +:+ prop +:+ " from " +:+ to_string old +:+ " to " +:+ to_string v +:+ ".");;;
       write prop v;;;
       ret PUndef)%js.

Definition personProxy2 : handler :=
  Handler (Some personProxy2_get) (Some personProxy2_set).

(** Lines 20-24 *)
Definition initial : state :=
  State {[ "name" := PStr "John Doe"; "age" := PNum 42;
           "nationality" := PStr "American" ]} [].

(** Lines 61-92 *)
Definition script : M state unit :=
  (proxy_get personProxy1 "name";;;
   proxy_set false personProxy1 "age" (PNum 33);;;
   proxy_get personProxy2 "nonExistentProperty";;;
   proxy_set false personProxy2 "age" (PStr "23");;;
   proxy_set false personProxy2 "name" (PStr "Thanos"))%js.

(** What a client holding [personProxy2] can do: read a property or
    assign one. *)
Inductive op : Type :=
| OpGet (prop : string)
| OpSet (prop : string) (v : prim).

(** One client step through [personProxy2], in sloppy code; an exception
    is caught by the client and the state it leaves behind is kept.  A
    write the model does not cover (see [write]) is left out of the run. *)
Definition step2 (o : op) (s : state) : state :=
  match o with
  | OpGet prop =>
      match proxy_get personProxy2 prop s with
      | Some (_, s') => s'
      | None => s
      end
  | OpSet prop v =>
      match proxy_set false personProxy2 prop v s with
      | Some (_, s') => s'
      | None => s
      end
  end.

Definition run2 (os : list op) (s : state) : state :=
  fold_left (λ s o, step2 o s) os s.



Definition name_two_units (s : state) : bool :=
  match person s !! "name" with
  | Some (PStr n) => (2 <=? utf16_units n)%nat
  | _ => true
  end.

Definition missing_report : string := "This property dose't exist in objext".

End Proxy.

(** * Properties *)

(** ** Facts about the object model *)

Module JSFacts.
Import JS.

Section Facts.
Context {F : Type}.
Implicit Types (h : list (obj F)) (l p : loc) (k : string) (v : value F).

Lemma lookup_from_mono n m h l k r :
  lookup_from n h l k = Some r → (n ≤ m)%nat → lookup_from m h l k = Some r.
Proof.
  revert m l. induction n as [|n IH]; intros m l Hn Hle; [discriminate|].
  destruct m as [|m]; [lia|]. simpl in *.
  destruct (h !! l) as [o|]; [|discriminate].
  destruct (props o !! k); [assumption|].
  destruct (proto o); [|assumption].
  apply IH; [assumption|lia].
Qed.

Lemma writable_from_mono n m h l k w :
  writable_from n h l k = Some w → (n ≤ m)%nat → writable_from m h l k = Some w.
Proof.
  revert m l. induction n as [|n IH]; intros m l Hn Hle; [discriminate|].
  destruct m as [|m]; [lia|]. simpl in *.
  destruct (h !! l) as [o|]; [|discriminate].
  destruct (props o !! k); [assumption|].
  destruct (proto o); [|assumption].
  apply IH; [assumption|lia].
Qed.

(** The walk of the code yields what the spec's lookup describes. *)
Lemma lookup_from_resolves n h l k r :
  lookup_from n h l k = Some r → resolves h k l r.
Proof.
  revert l. induction n as [|n IH]; intros l Hn; [discriminate|].
  simpl in Hn.
  destruct (h !! l) as [o|] eqn:Hl; [|discriminate].
  destruct (props o !! k) as [v|] eqn:Hk.
  - injection Hn as <-. eapply resolves_own; eassumption.
  - destruct (proto o) as [p|] eqn:Hp.
    + eapply resolves_delegate; eauto.
    + injection Hn as <-. eapply resolves_exhausted; eassumption.
Qed.

Lemma resolves_lookup_from h l k r :
  resolves h k l r → ∃ n, lookup_from n h l k = Some r.
Proof.
  induction 1 as [l o v Hl Hk|l o Hl Hk Hp|l o p r Hl Hk Hp _ [n IH]].
  - exists 1%nat. simpl. by rewrite Hl, Hk.
  - exists 1%nat. simpl. by rewrite Hl, Hk, Hp.
  - exists (S n). simpl. by rewrite Hl, Hk, Hp.
Qed.


Lemma ordered_from_spec i h l o p :
  ordered_from i h = true → h !! l = Some o → proto o = Some p →
  (p < i + l)%nat.
Proof.
  revert i l. induction h as [|o' h IH]; intros i l Hb Hl Hp; [done|].
  cbn [ordered_from] in Hb. apply andb_true_iff in Hb as [Ho Hb].
  destruct l as [|l]; simpl in Hl.
  - injection Hl as ->. unfold older_proto in Ho. rewrite Hp in Ho.
    apply Nat.ltb_lt in Ho. lia.
  - specialize (IH (S i) l Hb Hl Hp). lia.
Qed.

Lemma orderedb_ordered h : orderedb h = true → ordered h.
Proof.
  intros Hb l o p Hl Hp. apply (ordered_from_spec 0 h l o p Hb Hl Hp).
Qed.

Lemma ordered_from_app i h o :
  ordered_from i (h ++ [o])
  = ordered_from i h && older_proto (i + length h) o.
Proof.
  revert i. induction h as [|o' h IH]; intros i; cbn [ordered_from app length].
  - rewrite Nat.add_0_r. by rewrite andb_true_r.
  - rewrite IH. rewrite <- andb_assoc. do 3 f_equal. lia.
Qed.

Lemma orderedb_alloc h own p :
  orderedb h = true → (p < length h)%nat →
  orderedb (h ++ [fresh_obj own (Some p)]) = true.
Proof.
  intros Hh Hp. unfold orderedb. rewrite ordered_from_app.
  fold (orderedb h). rewrite Hh. cbn. by apply Nat.ltb_lt.
Qed.

(** In an ordered arena the walk from [l] ends within [l + 1] steps. *)
Lemma lookup_from_total h l k :
  ordered h → (l < length h)%nat → ∃ r, lookup_from (S l) h l k = Some r.
Proof.
  intros Hord. induction l as [l IH] using lt_wf_ind. intros Hl.
  destruct (lookup_lt_is_Some_2 h l Hl) as [o Ho].
  cbn [lookup_from]. rewrite Ho.
  destruct (props o !! k) as [v|]; [eauto|].
  destruct (proto o) as [p|] eqn:Hp; [|eauto].
  pose proof (Hord l o p Ho Hp) as Hlt.
  destruct (IH p Hlt) as [r Hr]; [lia|].
  exists r. eapply lookup_from_mono; [exact Hr|lia].
Qed.

Lemma lookup_prop_total h l k :
  ordered h → (l < length h)%nat → ∃ r, lookup_prop h l k = Some r.
Proof.
  intros Hord Hl. destruct (lookup_from_total h l k Hord Hl) as [r Hr].
  exists r. unfold lookup_prop, depth.
  eapply lookup_from_mono; [exact Hr|lia].
Qed.

Lemma writable_from_total h l k :
  ordered h → (l < length h)%nat → ∃ w, writable_from (S l) h l k = Some w.
Proof.
  intros Hord. induction l as [l IH] using lt_wf_ind. intros Hl.
  destruct (lookup_lt_is_Some_2 h l Hl) as [o Ho].
  cbn [writable_from]. rewrite Ho.
  destruct (props o !! k) as [v|]; [eauto|].
  destruct (proto o) as [p|] eqn:Hp; [|eauto].
  pose proof (Hord l o p Ho Hp) as Hlt.
  destruct (IH p Hlt) as [r Hr]; [lia|].
  exists r. eapply writable_from_mono; [exact Hr|lia].
Qed.

Lemma is_accessor_other k (v : value F) : k ≠ "__proto__" → is_accessor k v = false.
Proof. intros Hk. unfold is_accessor. by apply String.eqb_neq in Hk as ->. Qed.

Lemma is_accessor_fun k (f : F) : is_accessor k (VFun f) = false.
Proof. unfold is_accessor. by rewrite andb_false_r. Qed.

Lemma meets_accessor_other h l k : k ≠ "__proto__" → meets_accessor h l k = false.
Proof.
  intros Hk. unfold meets_accessor.
  destruct (lookup_prop h l k) as [[v|]|]; try reflexivity.
  by apply is_accessor_other.
Qed.

(** A frozen object refuses every write of a data member and the arena
    stays as it is. *)
Lemma Put_data_frozen h l o k v :
  ordered h → h !! l = Some o → extensible o = false → writable o = false →
  Put_data h l k v = Some (false, h).
Proof.
  intros Hord Hl He Hw.
  pose proof (lookup_lt_Some _ _ _ Hl) as Hlt.
  destruct (writable_from_total h l k Hord Hlt) as [w Hwf].
  unfold Put_data, depth.
  rewrite (writable_from_mono _ (S (length h)) _ _ _ _ Hwf) by lia.
  simpl. rewrite Hl. simpl.
  destruct w; simpl; [|reflexivity].
  destruct (props o !! k); [by rewrite Hw | by rewrite He].
Qed.

Lemma Put_proto_frozen h l o np :
  extensible o = false → ∃ b, Put_proto h l o np = (b, h).
Proof.
  intros He. unfold Put_proto. rewrite He. cbn [negb orb].
  destruct (decide (proto o = np)); eauto.
Qed.

(** Whatever is assigned to a frozen object of an ordered arena, the
    arena stays as it is. *)
Lemma Put_frozen_heap h l o k v :
  ordered h → h !! l = Some o → extensible o = false → writable o = false →
  ∃ b, Put h l k v = Some (b, h).
Proof.
  intros Hord Hl He Hw.
  pose proof (lookup_lt_Some _ _ _ Hl) as Hlt.
  destruct (lookup_prop_total h l k Hord Hlt) as [r Hr].
  unfold Put. rewrite Hr. cbn [mbind option_bind]. rewrite Hl. cbn [mbind option_bind].
  pose proof (Put_data_frozen h l o k v Hord Hl He Hw) as Hd.
  destruct r as [v'|]; [|eauto].
  destruct (is_accessor k v'); [|eauto].
  unfold Put_accessor. rewrite He. cbn [negb orb].
  destruct v as [| | | | | |q|]; eauto.
  - destruct (Put_proto_frozen h l o None He) as [b ->]. eauto.
  - destruct (Put_proto_frozen h l o (Some q) He) as [b ->]. eauto.
Qed.

(** Where the walk does not meet the accessor, a frozen object refuses. *)
Lemma Put_frozen h l o k v :
  ordered h → h !! l = Some o → extensible o = false → writable o = false →
  meets_accessor h l k = false →
  Put h l k v = Some (false, h).
Proof.
  intros Hord Hl He Hw Hm.
  pose proof (lookup_lt_Some _ _ _ Hl) as Hlt.
  destruct (lookup_prop_total h l k Hord Hlt) as [r Hr].
  unfold Put. unfold meets_accessor in Hm. rewrite Hr in *.
  cbn [mbind option_bind]. rewrite Hl. cbn [mbind option_bind].
  destruct r as [v'|]; [rewrite Hm|]; by apply (Put_data_frozen h l o).
Qed.

(** A write of a data member that took place changed the own properties
    of the receiver and nothing else. *)
Lemma Put_data_done h l k v h' :
  Put_data h l k v = Some (true, h') →
  ∃ o, h !! l = Some o ∧ h' = <[l := set_own k v o]> h.
Proof.
  unfold Put_data. intros H.
  destruct (writable_from (depth h) h l k) as [w|]; [|discriminate].
  simpl in H. destruct (h !! l) as [o|] eqn:Hl; [|discriminate].
  simpl in H. exists o. split; [reflexivity|].
  destruct w; simpl in H; [|discriminate].
  destruct (props o !! k);
    [destruct (writable o)|destruct (extensible o)]; congruence.
Qed.

(** Assigning a function never goes through the accessor. *)
Lemma Put_done h l k (f : F) h' :
  Put h l k (VFun f) = Some (true, h') →
  ∃ o, h !! l = Some o ∧ h' = <[l := set_own k (VFun f) o]> h.
Proof.
  unfold Put. intros H.
  destruct (lookup_prop h l k) as [r|]; [|discriminate].
  cbn [mbind option_bind] in H.
  destruct (h !! l) as [o|] eqn:Hl; [|discriminate].
  cbn [mbind option_bind] in H.
  assert (Put_data h l k (VFun f) = Some (true, h') →
          ∃ o0, Some o = Some o0 ∧ h' = <[l := set_own k (VFun f) o0]> h) as Hd.
  { intros Hd. destruct (Put_data_done _ _ _ _ _ Hd) as (o0 & Ho0 & ->).
    exists o0. split; [congruence|reflexivity]. }
  destruct r as [v'|]; [|by apply Hd].
  destruct (is_accessor k v'); [|by apply Hd].
  unfold Put_accessor in H.
  destruct (negb (extensible o) || (l =? root)%nat); discriminate.
Qed.

(** Whatever an assignment does, it changes the receiver at most. *)
Lemma Put_shape h l k v b h' :
  Put h l k v = Some (b, h') →
  h' = h ∨ ∃ o o', h !! l = Some o ∧ h' = <[l := o']> h.
Proof.
  unfold Put. intros H.
  destruct (lookup_prop h l k) as [r|]; [|discriminate].
  cbn [mbind option_bind] in H.
  destruct (h !! l) as [o|] eqn:Hl; [|discriminate].
  cbn [mbind option_bind] in H.
  assert (∀ b h', Put_data h l k v = Some (b, h') →
          h' = h ∨ ∃ o0 o', Some o = Some o0 ∧ h' = <[l := o']> h) as Hd.
  { clear H b h'. intros b h' Hd. unfold Put_data in Hd.
    destruct (writable_from (depth h) h l k) as [w|]; [|discriminate].
    cbn in Hd. rewrite Hl in Hd. cbn in Hd.
    destruct w; cbn in Hd; [|injection Hd as _ <-; by left].
    destruct (props o !! k);
      [destruct (writable o)|destruct (extensible o)];
      injection Hd as _ <-; eauto. }
  assert (∀ np b h', Put_proto h l o np = (b, h') →
          h' = h ∨ ∃ o0 o', Some o = Some o0 ∧ h' = <[l := o']> h) as Hp.
  { clear H b h'. intros np b h' Hp. unfold Put_proto in Hp.
    destruct (decide (proto o = np)); [injection Hp as _ <-; by left|].
    destruct (negb (extensible o) || (l =? root)%nat);
      [injection Hp as _ <-; by left|].
    destruct (match np with Some q => reaches (depth h) h q l | None => false end);
      injection Hp as _ <-; eauto. }
  destruct r as [v'|]; [|by eapply Hd].
  destruct (is_accessor k v'); [|by eapply Hd].
  unfold Put_accessor in H.
  destruct v; try (injection H as _ <-; by left);
    try (injection H as H; by eapply Hp);
    destruct (negb (extensible o) || (l =? root)%nat);
    try discriminate; injection H as _ <-; by left.
Qed.

Lemma Put_length h a k v b h' : Put h a k v = Some (b, h') → length h' = length h.
Proof.
  intros [->|(o & o' & _ & ->)]%Put_shape; [reflexivity|].
  by rewrite length_insert.
Qed.

(** A change of [a] is seen only by walks that meet [a]. *)
Lemma lookup_from_insert_frame n h a o' b k :
  reaches n h b a = false →
  lookup_from n (<[a := o']> h) b k = lookup_from n h b k.
Proof.
  revert b. induction n as [|n IH]; intros b Hr; [reflexivity|].
  cbn [reaches] in Hr. apply orb_false_iff in Hr as [Hne Hr].
  apply Nat.eqb_neq in Hne. cbn [lookup_from].
  rewrite list_lookup_insert_ne by auto.
  destruct (h !! b) as [ob|]; [|reflexivity].
  destruct (props ob !! k); [reflexivity|].
  destruct (proto ob) as [q|]; [|reflexivity]. by apply IH.
Qed.

Lemma lookup_from_Put_frame n h a k v ok h' b k' :
  Put h a k v = Some (ok, h') → reaches n h b a = false →
  lookup_from n h' b k' = lookup_from n h b k'.
Proof.
  intros [->|(o & o' & _ & ->)]%Put_shape Hr; [reflexivity|].
  by apply lookup_from_insert_frame.
Qed.

Lemma Get_Put_frame h a k v ok h' b k' :
  Put h a k v = Some (ok, h') → reaches (depth h) h b a = false →
  Get h' b k' = Get h b k'.
Proof.
  intros HPut Hr. unfold Get, lookup_prop.
  replace (depth h') with (depth h)
    by (unfold depth; by rewrite (Put_length _ _ _ _ _ _ HPut)).
  rewrite (lookup_from_Put_frame _ _ _ _ _ _ _ b k' HPut Hr).
  assert (prototype_of h' b = prototype_of h b) as ->; [|reflexivity].
  apply Put_shape in HPut as [->|(o & o' & _ & ->)]; [reflexivity|].
  unfold prototype_of. unfold depth in Hr. cbn [reaches] in Hr.
  apply orb_false_iff in Hr as [Hne _]. apply Nat.eqb_neq in Hne.
  by rewrite list_lookup_insert_ne by auto.
Qed.

(** A function written under [k] to [p] is what a walk reads that meets
    [p] before any owner of [k]. *)
Lemma lookup_from_Put_inherits n h p k (f : F) h' b :
  Put h p k (VFun f) = Some (true, h') → inherits n h b p k = true →
  lookup_from n h' b k = Some (Some (VFun f)).
Proof.
  intros (o & Ho & ->)%Put_done. revert b.
  pose proof (lookup_lt_Some _ _ _ Ho) as Hlt.
  induction n as [|n IH]; intros b Hi; [discriminate|].
  cbn [inherits] in Hi. cbn [lookup_from].
  destruct (Nat.eqb_spec b p) as [Heq|Hne].
  - rewrite Heq. rewrite list_lookup_insert_eq by exact Hlt.
    cbn [props set_own]. by rewrite lookup_insert_eq.
  - rewrite list_lookup_insert_ne by auto.
    destruct (h !! b) as [ob|]; [|discriminate].
    destruct (props ob !! k); [discriminate|].
    destruct (proto ob) as [q|]; [|discriminate]. by apply IH.
Qed.

Lemma Get_Put_inherits h p k (f : F) h' b :
  Put h p k (VFun f) = Some (true, h') → inherits (depth h) h b p k = true →
  Get h' b k = Some (VFun f).
Proof.
  intros HPut Hi. unfold Get, lookup_prop.
  replace (depth h') with (depth h)
    by (unfold depth; by rewrite (Put_length _ _ _ _ _ _ HPut)).
  rewrite (lookup_from_Put_inherits _ _ _ _ _ _ b HPut Hi).
  by rewrite is_accessor_fun.
Qed.

(** Allocation leaves the walks of an ordered arena as they were. *)
Lemma lookup_from_alloc n h o l k :
  ordered h → (l < length h)%nat →
  lookup_from n (h ++ [o]) l k = lookup_from n h l k.
Proof.
  intros Hord. revert l. induction n as [|n IH]; intros l Hl; [reflexivity|].
  cbn [lookup_from]. rewrite lookup_app_l by exact Hl.
  destruct (h !! l) as [ol|] eqn:Hol; [|reflexivity].
  destruct (props ol !! k); [reflexivity|].
  destruct (proto ol) as [q|] eqn:Hq; [|reflexivity].
  apply IH. pose proof (Hord l ol q Hol Hq). lia.
Qed.

Lemma writable_from_alloc n h o l k :
  ordered h → (l < length h)%nat →
  writable_from n (h ++ [o]) l k = writable_from n h l k.
Proof.
  intros Hord. revert l. induction n as [|n IH]; intros l Hl; [reflexivity|].
  cbn [writable_from]. rewrite lookup_app_l by exact Hl.
  destruct (h !! l) as [ol|] eqn:Hol; [|reflexivity].
  destruct (props ol !! k); [reflexivity|].
  destruct (proto ol) as [q|] eqn:Hq; [|reflexivity].
  apply IH. pose proof (Hord l ol q Hol Hq). lia.
Qed.

Lemma lookup_prop_alloc h o l k :
  ordered h → (l < length h)%nat →
  lookup_prop (h ++ [o]) l k = lookup_prop h l k.
Proof.
  intros Hord Hl. destruct (lookup_from_total h l k Hord Hl) as [r Hr].
  unfold lookup_prop, depth.
  rewrite lookup_from_alloc by assumption.
  rewrite (lookup_from_mono _ (S (length (h ++ [o]))) _ _ _ _ Hr)
    by (rewrite length_app; lia).
  by rewrite (lookup_from_mono _ (S (length h)) _ _ _ _ Hr) by lia.
Qed.

Lemma Get_alloc_old h o l k :
  ordered h → (l < length h)%nat → Get (h ++ [o]) l k = Get h l k.
Proof.
  intros Hord Hl. unfold Get. rewrite lookup_prop_alloc by assumption.
  unfold prototype_of. by rewrite lookup_app_l by exact Hl.
Qed.

Lemma lookup_prop_alloc_new h own p k :
  ordered h → (p < length h)%nat →
  lookup_prop (h ++ [fresh_obj own (Some p)]) (length h) k
  = match own !! k with
    | Some v => Some (Some v)
    | None => lookup_prop h p k
    end.
Proof.
  intros Hord Hp. unfold lookup_prop at 1. unfold depth.
  rewrite length_app, Nat.add_1_r.
  set (n := S (length h)). cbn [lookup_from].
  rewrite (list_lookup_middle h [] _ (length h) eq_refl).
  cbn [props proto fresh_obj].
  destruct (own !! k); [reflexivity|].
  rewrite lookup_from_alloc by assumption. reflexivity.
Qed.

(** The newest object reads its own members and, for the rest, what its
    prototype reads; the accessor [__proto__] apart, which reads each
    object's own prototype. *)
Lemma Get_alloc_new h own p k :
  ordered h → (p < length h)%nat → k ≠ "__proto__" →
  Get (h ++ [fresh_obj own (Some p)]) (length h) k
  = match own !! k with
    | Some v => Some v
    | None => Get h p k
    end.
Proof.
  intros Hord Hp Hk. unfold Get. rewrite lookup_prop_alloc_new by assumption.
  destruct (own !! k) as [v|]; [by rewrite is_accessor_other|].
  destruct (lookup_prop h p k) as [[v|]|]; try reflexivity.
  by rewrite !is_accessor_other.
Qed.

End Facts.

End JSFacts.

(** ** Prototype *)

Module PrototypeSpec.
Import JS JSFacts Prototype.

Example prototype_script_runs : fst <$> script initial = Some (Return named).
Proof. reflexivity. Qed.

Example prototype_script_console :
  console final_state = ["Playing now!"; "Flying!"; "Woof!"].
Proof. reflexivity. Qed.



(** What the script's objects inherit from [Object.prototype]. *)
Example dog7_toString :
  invoke (dog7 named) "toString" final_state
  = Some (Return (VStr "[object Object]"), final_state).
Proof. reflexivity. Qed.

Example dog1_constructor :
  Get (heap final_state) (dog1 named) "constructor" = Some (VFun Dog_class) ∧
  fst <$> invoke (dog1 named) "constructor" final_state
  = Some (Throw (TypeError "Class constructor cannot be invoked without 'new'")).
Proof. split; reflexivity. Qed.

Example dog1_proto :
  Get (heap final_state) (dog1 named) "__proto__"
  = Some (VObj (Dog_prototype named)) ∧
  invoke (dog1 named) "__proto__" final_state
  = Some (Throw (TypeError "__proto__ is not a function"), final_state).
Proof. split; reflexivity. Qed.

(** Once [k] is an own member of [p], whatever delegates to [p] and has
    no own [k] reads that member. *)
Lemma Get_after_set (h : list obj) p op a oa k f :
  h !! p = Some op → h !! a = Some oa → proto oa = Some p →
  props oa !! k = None →
  Get (<[p := set_own k (VFun f) op]> h) a k = Some (VFun f).
Proof.
  intros Hp Ha Hpa Hk.
  pose proof (lookup_lt_Some _ _ _ Hp) as Hlt.
  assert (lookup_prop (<[p := set_own k (VFun f) op]> h) a k
          = Some (Some (VFun f))) as Hl.
  { unfold lookup_prop, depth. rewrite length_insert.
    destruct (length h) as [|n] eqn:Hn; [lia|]. rewrite <- Hn in Hlt.
    cbn [lookup_from].
    destruct (decide (a = p)) as [->|Hne].
    - rewrite list_lookup_insert_eq by exact Hlt.
      cbn [props set_own]. by rewrite lookup_insert_eq.
    - rewrite list_lookup_insert_ne by auto. rewrite Ha, Hk, Hpa.
      rewrite list_lookup_insert_eq by exact Hlt.
      cbn [props set_own]. by rewrite lookup_insert_eq. }
  unfold Get. rewrite Hl. by rewrite is_accessor_fun.
Qed.

Lemma invoke_Get s l k f :
  Get (heap s) l k = Some (VFun f) → invoke l k s = Some (call f s).
Proof. unfold invoke. by intros ->. Qed.

(** C1, as amended.  Let [a] and [b] delegate to the same behaviour
    table [p], and let neither hold [m] as own data.  When the assignment
    [p.m = f] takes place, that is, stores [f] as a member of the table
    (which an assignment to [__proto__] never does: it reaches the
    inherited accessor), it completes normally and from then on [m] read
    on [a] and on [b] is the function [f], so that [a.m()] and [b.m()]
    both run [f], with the same result and the same effects. *)
Theorem prototype_sharing (s : state) (a b p : loc) (oa ob : obj)
    (m : string) (f : func) (h' : list obj) :
  heap s !! a = Some oa → proto oa = Some p → props oa !! m = None →
  heap s !! b = Some ob → proto ob = Some p → props ob !! m = None →
  Put (heap s) p m (VFun f) = Some (true, h') →
  set_member false p m (VFun f) s = Some (Return tt, State h' (console s)) ∧
  Get h' a m = Some (VFun f) ∧
  Get h' b m = Some (VFun f) ∧
  invoke a m (State h' (console s)) = Some (call f (State h' (console s))) ∧
  invoke b m (State h' (console s)) = Some (call f (State h' (console s))).
Proof.
  intros Ha Hpa Hka Hb Hpb Hkb HPut.
  destruct (Put_done _ _ _ _ _ HPut) as (op & Hp & ->).
  pose proof (Get_after_set _ _ _ _ _ m f Hp Ha Hpa Hka) as Ga.
  pose proof (Get_after_set _ _ _ _ _ m f Hp Hb Hpb Hkb) as Gb.
  split; [|split; [exact Ga|split; [exact Gb|split]]].
  - unfold set_member, assign. by rewrite HPut.
  - by apply invoke_Get.
  - by apply invoke_Get.
Qed.

(** Lines 70-76 of the script: [dog4] and [dog5] after
    [Dog.prototype.play = ...]. *)
Lemma prototype_sharing_witness :
  Put (heap dogs_state) (Dog_prototype named) "play" (VFun play)
    = Some (true, heap play_state) ∧
  invoke (dog4 named) "play" play_state
    = Some (Return VUndef, console_log "Playing now!" play_state) ∧
  invoke (dog5 named) "play" play_state
    = Some (Return VUndef, console_log "Playing now!" play_state).
Proof.
  assert (heap dogs_state !! dog4 named
          = Some (fresh_obj {["name" := VStr "Daisy"]} (Some 1%nat))) as Ha
    by (vm_compute; reflexivity).
  assert (heap dogs_state !! dog5 named
          = Some (fresh_obj {["name" := VStr "Max"]} (Some 1%nat))) as Hb
    by (vm_compute; reflexivity).
  assert (Put (heap dogs_state) (Dog_prototype named) "play" (VFun play)
          = Some (true, heap play_state)) as HPut
    by (vm_compute; reflexivity).
  pose proof (prototype_sharing dogs_state _ _ _ _ _ "play" play _
    Ha eq_refl eq_refl Hb eq_refl eq_refl HPut) as (_ & _ & _ & Ia & Ib).
  split; [exact HPut|]. split; [exact Ia|exact Ib].
Defined.

(** C1, as stated, fails when the method is added under the name of an
    own data member: after [Dog.prototype.name = f] the table does hold
    [f], yet [dog4.name] and [dog5.name] still read the dogs' own names
    and [dog4.name()] is a TypeError. *)
Lemma prototype_sharing_shadowed :
  fst <$> shadowing_demo initial
    = Some (Throw (TypeError "name is not a function")) ∧
  Get (heap (state_after shadowing_demo)) (Dog_prototype named) "name"
    = Some (VFun play) ∧
  Get (heap (state_after shadowing_demo)) (dog4 named) "name"
    = Some (VStr "Daisy") ∧
  Get (heap (state_after shadowing_demo)) (dog5 named) "name"
    = Some (VStr "Max").
Proof. repeat split; reflexivity. Qed.

(** C5.  In a three-level chain (instance, child table, parent table)
    a method defined on the parent alone is what lookup on the instance
    finds, and invoking it on the instance runs it. *)
Theorem chain_delegation (s : state) (i c p : loc) (oi oc op : obj)
    (m : string) (f : func) :
  heap s !! i = Some oi → proto oi = Some c → props oi !! m = None →
  heap s !! c = Some oc → proto oc = Some p → props oc !! m = None →
  heap s !! p = Some op → props op !! m = Some (VFun f) →
  resolves (heap s) m i (Some (VFun f)) ∧
  Get (heap s) i m = Some (VFun f) ∧
  invoke i m s = Some (call f s).
Proof.
  intros Hi Hpi Hki Hc Hpc Hkc Hp Hkp.
  assert (lookup_prop (heap s) i m = Some (Some (VFun f))) as Hl.
  { unfold lookup_prop, depth.
    pose proof (lookup_lt_Some _ _ _ Hi) as Li.
    pose proof (lookup_lt_Some _ _ _ Hc) as Lc.
    pose proof (lookup_lt_Some _ _ _ Hp) as Lp.
    destruct (length (heap s)) as [|[|n]]; [lia| |].
    - assert (i = 0%nat) as -> by lia. assert (p = 0%nat) as -> by lia.
      congruence.
    - cbn [lookup_from]. by rewrite Hi, Hki, Hpi, Hc, Hkc, Hpc, Hp, Hkp. }
  split; [by eapply lookup_from_resolves|].
  assert (Get (heap s) i m = Some (VFun f)) as HG
    by (unfold Get; rewrite Hl; by rewrite is_accessor_fun).
  split; [exact HG|by apply invoke_Get].
Qed.

(** Lines 91-102: [dog7] is a [SuperDog]; [bark] lives on
    [Dog.prototype] alone. *)
Lemma chain_delegation_witness :
  proto <$> heap final_state !! dog7 named = Some (Some (SuperDog_prototype named)) ∧
  proto <$> heap final_state !! SuperDog_prototype named = Some (Some (Dog_prototype named)) ∧
  invoke (dog7 named) "bark" final_state = Some (Return (VStr "Woof!"), final_state).
Proof.
  assert (heap final_state !! dog7 named
          = Some (fresh_obj {["name" := VStr "Daisy"]} (Some 9%nat))) as Hi
    by (vm_compute; reflexivity).
  assert (heap final_state !! SuperDog_prototype named
          = Some (fresh_obj {["constructor" := VFun SuperDog_class;
                              "fly" := VFun SuperDog_fly]} (Some 1%nat))) as Hc
    by (vm_compute; reflexivity).
  assert (heap final_state !! Dog_prototype named
          = Some (fresh_obj {["constructor" := VFun Dog_class;
                              "bark" := VFun Dog_bark; "play" := VFun play]}
                    (Some 0%nat))) as Hp
    by (vm_compute; reflexivity).
  pose proof (chain_delegation final_state _ _ _ _ _ _ "bark" Dog_bark
    Hi eq_refl eq_refl Hc eq_refl eq_refl Hp eq_refl) as (_ & _ & H).
  split; [by rewrite Hi|]. split; [by rewrite Hc|exact H].
Defined.




End PrototypeSpec.

(** ** Singleton *)

Module SingletonSpec.
Import JS JSFacts Singleton.

Example singleton_script_runs :
  fst <$> script initial = Some (Return named).
Proof. reflexivity. Qed.

(** Line 181 ran the method of the class, not the arrow function of
    line 177: nothing was printed and the counter went down. *)
Example singleton_script_effect :
  console final_state = [] ∧ counter final_state = -1.
Proof. split; reflexivity. Qed.

(** *** Number arithmetic on the counter *)

Lemma round_double_exact z :
  - max_counter ≤ z ≤ max_counter → round_double z = z.
Proof.
  unfold max_counter, round_double. intros Hz.
  destruct (Z.ltb_spec (Z.abs z) (2 ^ 53)) as [|Habs]; [reflexivity|].
  assert (z = 2 ^ 53 ∨ z = - 2 ^ 53) as [-> | ->] by lia; reflexivity.
Qed.

Lemma round_double_above : round_double (max_counter + 1) = max_counter.
Proof. reflexivity. Qed.

Lemma round_double_below : round_double (- max_counter - 1) = - max_counter.
Proof. reflexivity. Qed.

Lemma round_double_succ c :
  - max_counter ≤ c ≤ max_counter →
  round_double (c + 1) = Z.min (c + 1) max_counter.
Proof.
  intros Hc. destruct (decide (c = max_counter)) as [->|Hne].
  - rewrite round_double_above. lia.
  - rewrite round_double_exact by lia. lia.
Qed.

Lemma round_double_pred c :
  - max_counter ≤ c ≤ max_counter →
  round_double (c - 1) = Z.max (c - 1) (- max_counter).
Proof.
  intros Hc. destruct (decide (c = - max_counter)) as [->|Hne].
  - rewrite round_double_below. lia.
  - rewrite round_double_exact by lia. lia.
Qed.

(** *** The state from line 175 on *)

Lemma set_heap_same s : set_heap (heap s) s = s.
Proof. by destruct s. Qed.

Lemma handle_state_world :
  handle_world (Counter_prototype named) (singletonCounter named) handle_state.
Proof. split; try reflexivity. by vm_compute. Qed.

Lemma final_state_world :
  handle_world (Counter_prototype named) (singletonCounter named) final_state.
Proof. split; try reflexivity. by vm_compute. Qed.

Section World.
Context (Counterp sc : loc) (s : state).
Hypothesis W : handle_world Counterp sc s.

Lemma world_Get_method m f :
  Counter_methods !! m = Some (VFun f) →
  Get (heap s) sc m = Some (VFun f).
Proof.
  intros Hm. destruct W as [_ _ Hsc Hcp _].
  assert (lookup_from 2 (heap s) sc m = Some (Some (VFun f))) as H2.
  { cbn [lookup_from]. rewrite Hsc. cbn [props proto].
    rewrite lookup_empty, Hcp. cbn [props fresh_obj]. by rewrite Hm. }
  unfold Get, lookup_prop, depth.
  pose proof (lookup_lt_Some _ _ _ Hsc).
  rewrite (lookup_from_mono _ (S (length (heap s))) _ _ _ _ H2) by lia.
  by rewrite is_accessor_fun.
Qed.

Lemma world_invoke_method m f :
  Counter_methods !! m = Some (VFun f) → invoke sc m s = Some (call f s).
Proof. intros Hm. unfold invoke. by rewrite (world_Get_method m f Hm). Qed.

(** An assignment to a member of the class on the frozen handle changes
    nothing and, in sloppy code, raises nothing. *)
Lemma world_assign m f v :
  Counter_methods !! m = Some (VFun f) →
  set_member false sc m v s = Some (Return tt, s).
Proof.
  intros Hm. pose proof (world_Get_method m f Hm) as HG.
  destruct W as [Ho _ Hsc _ _]. unfold set_member, assign.
  assert (meets_accessor (heap s) sc m = false) as Hacc.
  { unfold meets_accessor. unfold Get in HG.
    destruct (lookup_prop (heap s) sc m) as [[v'|]|]; try reflexivity.
    destruct (is_accessor m v') eqn:Hv'; [|reflexivity].
    injection HG as HG. unfold prototype_of in HG. rewrite Hsc in HG.
    discriminate. }
  rewrite (Put_frozen _ _ _ m v (orderedb_ordered _ Ho) Hsc eq_refl eq_refl Hacc).
  rewrite Hacc. by rewrite set_heap_same.
Qed.

(** Whatever is assigned to the frozen handle, the state stays as it
    is. *)
Lemma world_assign_any strict k v :
  ∃ r, set_member strict sc k v s = Some (r, s).
Proof.
  destruct W as [Ho _ Hsc _ _]. unfold set_member, assign.
  destruct (Put_frozen_heap _ _ _ k v (orderedb_ordered _ Ho) Hsc eq_refl eq_refl)
    as [b ->].
  rewrite set_heap_same. eauto.
Qed.

Lemma world_call f : handle_world Counterp sc (snd (call f s)).
Proof.
  destruct W as [Ho Hi Hsc Hcp Hc].
  destruct f; cbn [call snd]; split; cbn; try assumption.
  - rewrite round_double_succ by assumption. lia.
  - rewrite round_double_pred by assumption. lia.
Qed.

Lemma world_alloc own :
  handle_world Counterp sc
    (set_heap (heap s ++ [fresh_obj own (Some root)]) s).
Proof.
  destruct W as [Ho Hi Hsc Hcp Hc].
  pose proof (lookup_lt_Some _ _ _ Hsc) as Lsc.
  split; cbn; try assumption.
  - apply orderedb_alloc; [assumption|unfold root; lia].
  - by rewrite lookup_app_l.
  - by rewrite lookup_app_l by (by eapply lookup_lt_Some).
Qed.

(** A native method called on the handle returns or throws, and keeps
    what holds of the module. *)
Lemma world_native_plain n :
  n ≠ N_toLocaleString →
  ∃ r s', with_heap s (native_call n sc (heap s)) = Some (r, s') ∧
          handle_world Counterp sc s'.
Proof.
  intros Hn. pose proof W as [Ho Hi Hsc Hcp Hc].
  pose proof (lookup_lt_Some _ _ _ Hsc) as Lsc.
  destruct (lookup_prop_total (heap s) sc "undefined"
              (orderedb_ordered _ Ho) Lsc) as [ru Hru].
  destruct n; try done; unfold native_call;
    rewrite ?Hsc, ?Hru; cbn [mbind option_bind props with_heap];
    rewrite ?lookup_empty; cbn [with_heap];
    rewrite ?set_heap_same; eauto using world_alloc.
Qed.

Lemma world_native n :
  ∃ r s', call_native n sc s = Some (r, s') ∧ handle_world Counterp sc s'.
Proof.
  pose proof W as [Ho Hi Hsc Hcp Hc].
  pose proof (lookup_lt_Some _ _ _ Hsc) as Lsc.
  destruct (decide (n = N_toLocaleString)) as [->|Hn].
  - unfold call_native.
    destruct (lookup_prop_total (heap s) sc "toString"
                (orderedb_ordered _ Ho) Lsc) as [r Hr].
    unfold Get. rewrite Hr.
    destruct r as [v|]; [|eauto].
    destruct (is_accessor "toString" v); [unfold prototype_of; rewrite Hsc; eauto|].
    destruct v as [| | | | |f| |n']; eauto.
    + exists (fst (call f s)), (snd (call f s)).
      split; [by destruct (call f s)|apply world_call].
    + destruct (decide (n' = N_toLocaleString)) as [->|Hn']; [eauto|].
      destruct (world_native_plain n' Hn') as (r & s' & Hr' & W').
      exists r, s'. split; [|exact W']. by destruct n'.
  - destruct (world_native_plain n Hn) as (r & s' & Hr' & W').
    exists r, s'. split; [|exact W']. unfold call_native. by destruct n.
Qed.

Lemma world_step o :
  ∃ s', step Counterp sc o s = Some s' ∧ handle_world Counterp sc s'.
Proof.
  pose proof W as [Ho Hi Hsc Hcp Hc].
  pose proof (lookup_lt_Some _ _ _ Hsc) as Lsc.
  pose proof (lookup_lt_Some _ _ _ Hcp) as Lcp.
  destruct o as [|k|k v|]; cbn [step].
  - unfold new_Counter, bind, allocate, alloc, Counter_constructor.
    cbn. rewrite Hi. cbn. eexists. split; [reflexivity|].
    split; cbn; try assumption.
    + by apply orderedb_alloc.
    + by rewrite lookup_app_l.
    + by rewrite lookup_app_l.
  - unfold invoke.
    destruct (lookup_prop_total (heap s) sc k (orderedb_ordered _ Ho) Lsc)
      as [r Hr].
    unfold Get. rewrite Hr.
    destruct r as [v|]; [|cbn; eauto].
    destruct (is_accessor k v);
      [unfold prototype_of; rewrite Hsc; cbn; eauto|].
    destruct v as [| | | | |f| |n]; cbn; eauto.
    + exists (snd (call f s)). split; [reflexivity|apply world_call].
    + destruct (world_native n) as (r & s' & -> & W'). cbn. eauto.
  - destruct (world_assign_any false k v) as [r ->]. cbn. eauto.
  - unfold Object_freeze, freeze. rewrite Hsc. cbn.
    rewrite list_insert_id by exact Hsc. rewrite set_heap_same. eauto.
Qed.

End World.

Lemma world_steps Counterp sc os s :
  handle_world Counterp sc s →
  ∃ s', steps Counterp sc os s = Some s' ∧ handle_world Counterp sc s'.
Proof.
  revert s. induction os as [|o os IH]; intros s W; [by exists s|].
  destruct (world_step Counterp sc s W o) as (s1 & Hs1 & W1).
  cbn [steps]. rewrite Hs1. by apply IH.
Qed.

Lemma new_Counter_eq p s :
  new_Counter p s
  = Some (match instance s with
          | None =>
              (Return (length (heap s)),
               set_instance (Some (length (heap s)))
                 (set_heap (heap s ++ [fresh_obj ∅ (Some p)]) s))
          | Some _ =>
              (Throw SingletonViolation,
               set_heap (heap s ++ [fresh_obj ∅ (Some p)]) s)
          end).
Proof.
  unfold new_Counter, bind, allocate, alloc, Counter_constructor. cbn.
  by destruct (instance s).
Qed.

(** C2.  [new Counter()] throws the one-instance error exactly when
    [instance] is already set, and otherwise returns the new object and
    records it.  The first construction of the script succeeds and its
    handle is usable; after it, whatever a client does through the
    handle, any further construction throws. *)
Theorem singleton_uniqueness :
  (∀ p s,
     new_Counter p s
     = Some (match instance s with
             | None =>
                 (Return (length (heap s)),
                  set_instance (Some (length (heap s)))
                    (set_heap (heap s ++ [fresh_obj ∅ (Some p)]) s))
             | Some _ =>
                 (Throw SingletonViolation,
                  set_heap (heap s ++ [fresh_obj ∅ (Some p)]) s)
             end)) ∧
  instance initial = None ∧
  script_handle initial
    = Some (Return (Counter_prototype named, singletonCounter named),
            handle_state) ∧
  instance handle_state = Some (singletonCounter named) ∧
  invoke (singletonCounter named) "increment" handle_state
    = Some (Return (VNum 1), set_counter 1 handle_state) ∧
  (∀ os, ∃ s',
     steps (Counter_prototype named) (singletonCounter named) os handle_state
       = Some s' ∧
     fst <$> new_Counter (Counter_prototype named) s'
       = Some (Throw SingletonViolation)).
Proof.
  split; [exact new_Counter_eq|]. do 4 (split; [reflexivity|]).
  intros os.
  destruct (world_steps _ _ os _ handle_state_world) as (s' & Hs' & W').
  exists s'. split; [exact Hs'|].
  rewrite new_Counter_eq. by rewrite (world_instance _ _ _ W').
Qed.

(** C4.  From line 175 on, assigning any value to a method name of the
    frozen handle completes normally and leaves the whole state as it
    was; the method called right after, or after any further client
    steps, is the body the class declares. *)
Theorem singleton_freeze (Counterp sc : loc) (s : state) (m : string)
    (f : func) (v : value) :
  handle_world Counterp sc s →
  Counter_methods !! m = Some (VFun f) →
  set_member false sc m v s = Some (Return tt, s) ∧
  invoke sc m s = Some (call f s) ∧
  (∀ os, ∃ s',
     steps Counterp sc (OpAssign m v :: os) s = Some s' ∧
     invoke sc m s' = Some (call f s')).
Proof.
  intros W Hm. split; [by apply (world_assign Counterp _ _ W m f)|].
  split; [by apply (world_invoke_method Counterp)|].
  intros os.
  destruct (world_steps Counterp sc (OpAssign m v :: os) s W)
    as (s' & Hs' & W').
  exists s'. split; [exact Hs'|]. by apply (world_invoke_method Counterp).
Qed.

(** Lines 175-181: the arrow function is not installed, and
    [singletonCounter.decrement()] counts down without printing. *)
Lemma singleton_freeze_witness :
  handle_world (Counter_prototype named) (singletonCounter named) handle_state ∧
  set_member false (singletonCounter named) "decrement"
    (VFun replacement_decrement) handle_state
    = Some (Return tt, handle_state) ∧
  invoke (singletonCounter named) "decrement" handle_state
    = Some (Return (VNum (-1)), set_counter (-1) handle_state).
Proof.
  assert (handle_world (Counter_prototype named) (singletonCounter named)
            handle_state) as W
    by (split; try reflexivity; by vm_compute).
  destruct (singleton_freeze _ _ _ "decrement" Counter_decrement
              (VFun replacement_decrement) W eq_refl) as (Ha & Hi & _).
  split; [exact W|]. split; [exact Ha|exact Hi].
Defined.

(** C8, as amended.  From line 175 on, [increment()] on the handle never
    throws; it stores and returns the counter plus one, except that at
    2^53 the sum rounds back to 2^53 and the counter stays.
    [decrement()] does the same downwards, with -2^53 as the bound.
    Both act on the one module-level [counter], the one [getCounte()]
    reads. *)
Theorem counter_mutation (Counterp sc : loc) (s : state) :
  handle_world Counterp sc s →
  invoke sc "increment" s
    = Some (Return (VNum (if counter s =? max_counter
                          then counter s else counter s + 1)),
            set_counter (if counter s =? max_counter
                         then counter s else counter s + 1) s) ∧
  invoke sc "decrement" s
    = Some (Return (VNum (if counter s =? - max_counter
                          then counter s else counter s - 1)),
            set_counter (if counter s =? - max_counter
                         then counter s else counter s - 1) s) ∧
  invoke sc "getCounte" s = Some (Return (VNum (counter s)), s).
Proof.
  intros W. pose proof (world_counter _ _ _ W) as Hc.
  split; [|split;
    [|exact (world_invoke_method _ _ _ W "getCounte" Counter_getCounte eq_refl)]].
  - rewrite (world_invoke_method _ _ _ W "increment" Counter_increment eq_refl).
    cbn [call]. rewrite round_double_succ by exact Hc.
    destruct (Z.eqb_spec (counter s) max_counter) as [->|Hne].
    + by rewrite Z.min_r by lia.
    + by rewrite Z.min_l by lia.
  - rewrite (world_invoke_method _ _ _ W "decrement" Counter_decrement eq_refl).
    cbn [call]. rewrite round_double_pred by exact Hc.
    destruct (Z.eqb_spec (counter s) (- max_counter)) as [->|Hne].
    + by rewrite Z.max_r by lia.
    + by rewrite Z.max_l by lia.
Qed.

(** At the end of the script the counter is -1. *)
Lemma counter_mutation_witness :
  handle_world (Counter_prototype named) (singletonCounter named) final_state ∧
  invoke (singletonCounter named) "increment" final_state
    = Some (Return (VNum 0), set_counter 0 final_state) ∧
  invoke (singletonCounter named) "decrement" final_state
    = Some (Return (VNum (-2)), set_counter (-2) final_state).
Proof.
  assert (handle_world (Counter_prototype named) (singletonCounter named)
            final_state) as W
    by (split; try reflexivity; by vm_compute).
  destruct (counter_mutation _ _ _ W) as (Hi & Hd & _).
  split; [exact W|]. split; [exact Hi|exact Hd].
Defined.

Lemma set_counter_same s : set_counter (counter s) s = s.
Proof. by destruct s. Qed.

(** [n] increments in a row move the counter up by [n], but not beyond
    2^53. *)
Lemma increments_eq n s :
  - max_counter ≤ counter s ≤ max_counter →
  increments n s
  = set_counter (Z.min (counter s + Z.of_N n) max_counter) s.
Proof.
  intros Hc. unfold increments.
  induction n as [|n IH] using N.peano_ind.
  - cbn [N.iter]. rewrite Z.min_l by lia.
    replace (counter s + Z.of_N 0) with (counter s) by lia.
    by rewrite set_counter_same.
  - rewrite N.iter_succ, IH. cbn [call snd set_counter counter].
    rewrite round_double_succ by (cbn; lia).
    unfold set_counter. cbn. f_equal. lia.
Qed.

Lemma saturated_eq : saturated = set_counter max_counter final_state.
Proof.
  unfold saturated. rewrite increments_eq by (by vm_compute).
  reflexivity.
Qed.

(** C8, as stated, fails once the counter has reached 2^53, which
    2^53 + 1 calls of [increment] after the script bring about: the next
    [increment()] returns 2^53 again and leaves the counter where it
    was. *)
Lemma increment_stuck_at_max :
  handle_world (Counter_prototype named) (singletonCounter named) saturated ∧
  counter saturated = 2 ^ 53 ∧
  invoke (singletonCounter named) "increment" saturated
    = Some (Return (VNum (2 ^ 53)), saturated).
Proof.
  rewrite saturated_eq. split; [|split; reflexivity].
  split; try reflexivity. by vm_compute.
Qed.

End SingletonSpec.

(** ** Proxy *)

Module ProxyFacts.
Import JS Proxy.

Lemma member_own s prop v : person s !! prop = Some v → member s prop = v.
Proof. unfold member. by intros ->. Qed.

(** Nothing is inherited under [age] or [name]. *)
Lemma member_age s : member s "age" = default PUndef (person s !! "age").
Proof.
  unfold member. destruct (person s !! "age"); [reflexivity|].
  vm_compute. reflexivity.
Qed.

Lemma member_name s : member s "name" = default PUndef (person s !! "name").
Proof.
  unfold member. destruct (person s !! "name"); [reflexivity|].
  vm_compute. reflexivity.
Qed.

(** Under any name but [__proto__] a write stores the value. *)
Lemma write_stores prop v s :
  prop ≠ "__proto__" →
  write prop v s
  = Some (Return tt, State (<[prop := v]> (person s)) (console s)).
Proof. intros H%String.eqb_neq. unfold write. by rewrite H. Qed.

(** A write never throws; it stores the value or leaves the target as
    it is. *)
Lemma write_cases prop v s :
  write prop v s = None ∨
  write prop v s = Some (Return tt, s) ∨
  write prop v s
  = Some (Return tt, State (<[prop := v]> (person s)) (console s)).
Proof.
  unfold write.
  destruct (String.eqb prop "__proto__" &&
            negb (bool_decide (is_Some (person s !! prop))));
    [destruct v|]; auto.
Qed.



(** The [get] trap of [personProxy2]. *)
Lemma personProxy2_get_cases (s : state) (prop : string) :
  proxy_get personProxy2 prop s
  = Some (Return PUndef,
          State (person s)
            (console s ++
               [if to_boolean (member s prop)
                then "The value of " +:+ prop +:+ " is "
                     +:+ to_string (member s prop)
                else "This property dose't exist in objext"])).
Proof.
  unfold proxy_get. cbn [get personProxy2].
  unfold personProxy2_get, bind, read.
  by destruct (to_boolean (member s prop)).
Qed.

(** The [set] trap of [personProxy2], branch by branch. *)
Lemma personProxy2_set_cases (s : state) (prop : string) (v : prim) :
  proxy_set false personProxy2 prop v s
  = if String.eqb prop "age" && negb (String.eqb (typeof v) "number")
    then Some (Return tt, State (person s) (console s ++ [numeric_age_diagnostic]))
    else
      let stored :=
        write prop v
          (State (person s)
             (console s ++
                ["Changed " +:+ prop +:+ " from "
                 +:+ to_string (member s prop)
                 +:+ " to " +:+ to_string v +:+ "."])) in
      if String.eqb prop "name"
      then match length_of v with
           | Throw e => Some (Throw e, s)
           | Return n =>
               if less_than_2 n
               then Some (Return tt, State (person s) (console s ++ ["Invalid name "]))
               else stored
           end
      else stored.
Proof.
  assert (∀ s0,
    match
      match write prop v s0 with
      | Some (Return _, s') => Some (Return PUndef, s')
      | Some (Throw e, s') => Some (Throw e, s')
      | None => None
      end
    with
    | Some (Return r, s') =>
        (if to_boolean r then ret tt else ret tt) s'
    | Some (Throw e, s') => Some (Throw e, s')
    | None => None
    end = write prop v s0) as Hw.
  { intros s0. by destruct (write_cases prop v s0) as [->|[->| ->]]. }
  unfold proxy_set. cbn [set personProxy2]. unfold personProxy2_set, bind.
  destruct (String.eqb prop "age" && negb (String.eqb (typeof v) "number"));
    [reflexivity|].
  destruct (String.eqb prop "name").
  - destruct (length_of v) as [n|e]; [|reflexivity].
    cbn [ret]. destruct (less_than_2 n); [reflexivity|].
    unfold read, console_log. cbn [person console ret]. apply Hw.
  - cbn [ret]. unfold read, console_log. cbn [person console ret]. apply Hw.
Qed.

End ProxyFacts.

(** ** Proxy: the claims *)

Module ProxySpec.
Import JS Proxy ProxyFacts.

Example proxy_script_console :
  console ∘ snd <$> script initial
  = Some ["The value of name is John Doe"; "Changed age from 42 to 33";
          "This property dose't exist in objext";
          "Sorry you can only pass numeric value for age";
          "Changed name from John Doe to Thanos."].
Proof. vm_compute. reflexivity. Qed.

Example proxy_script_person :
  person ∘ snd <$> script initial
  = Some {[ "name" := PStr "Thanos"; "age" := PNum 33;
            "nationality" := PStr "American" ]}.
Proof. vm_compute. reflexivity. Qed.

(** What the [set] trap of [personProxy2] does with a write to [age]. *)
Lemma personProxy2_set_age (s : state) (v : prim) :
  proxy_set false personProxy2 "age" v s
  = Some (Return tt,
          if String.eqb (typeof v) "number"
          then State (<["age" := v]> (person s))
                 (console s ++
                    ["Changed age from "
                     +:+ to_string (default PUndef (person s !! "age"))
                     +:+ " to " +:+ to_string v +:+ "."])
          else State (person s) (console s ++ [numeric_age_diagnostic])).
Proof.
  rewrite personProxy2_set_cases.
  change (String.eqb "age" "age") with true.
  change (String.eqb "age" "name") with false.
  destruct (String.eqb (typeof v) "number"); [|reflexivity].
  cbn [andb negb]. rewrite write_stores by discriminate.
  by rewrite member_age.
Qed.

(** C3.  Through [personProxy2], in the script's sloppy mode, a write to
    [age] always completes normally: a value that is not a number prints
    the diagnostic and leaves the target as it was, a number is stored.
    So [age = "23"] leaves the target unchanged, and [age = 23] makes
    [target.age] 23. *)
Theorem proxy_write_validation :
  (∀ s v,
     proxy_set false personProxy2 "age" v s
     = Some (Return tt,
             if String.eqb (typeof v) "number"
             then State (<["age" := v]> (person s))
                    (console s ++
                       ["Changed age from "
                        +:+ to_string (default PUndef (person s !! "age"))
                        +:+ " to " +:+ to_string v +:+ "."])
             else State (person s) (console s ++ [numeric_age_diagnostic]))) ∧
  (∀ s, proxy_set false personProxy2 "age" (PStr "23") s
        = Some (Return tt,
                State (person s) (console s ++ [numeric_age_diagnostic]))) ∧
  (∀ s n, ∃ s',
     proxy_set false personProxy2 "age" (PNum n) s = Some (Return tt, s') ∧
     person s' = <["age" := PNum n]> (person s)) ∧
  (∀ s, ∃ s',
     proxy_set false personProxy2 "age" (PNum 23) s = Some (Return tt, s') ∧
     person s' !! "age" = Some (PNum 23)).
Proof.
  split; [|split; [|split]].
  - exact personProxy2_set_age.
  - intros s. by rewrite personProxy2_set_age.
  - intros s n. rewrite personProxy2_set_age.
    change (String.eqb (typeof (PNum n)) "number") with true.
    eexists. split; [reflexivity|]. reflexivity.
  - intros s. rewrite personProxy2_set_age.
    change (String.eqb (typeof (PNum 23)) "number") with true.
    eexists. split; [reflexivity|]. cbn [person]. apply lookup_insert_eq.
Qed.

(** C7.  Through a proxy whose handler has no [get] trap, reading a
    property the target holds returns the held value and changes
    nothing. *)
Theorem proxy_passthrough (h : handler) (s : state) (prop : string) (v : prim) :
  get h = None → person s !! prop = Some v →
  proxy_get h prop s = Some (Return v, s).
Proof.
  intros Hg Hv. unfold proxy_get, read. rewrite Hg.
  by rewrite (member_own _ _ _ Hv).
Qed.

(** Line 40: [personProxy.age] *)
Lemma proxy_passthrough_witness :
  get personProxy = None ∧ person initial !! "age" = Some (PNum 42) ∧
  proxy_get personProxy "age" initial = Some (Return (PNum 42), initial).
Proof.
  split; [reflexivity|]. split; [reflexivity|].
  apply (proxy_passthrough personProxy initial "age" (PNum 42));
    reflexivity.
Defined.

(** C9.  The [get] trap of [personProxy2] decides by the truthiness of
    the member, not by whether the target holds the key: reading a
    property the target holds prints the value line when the value is
    truthy and the message of a missing property when it is falsy (0,
    the empty string, false, ...); the falsy read is then the very read
    of a name that is neither held nor inherited. *)
Theorem falsy_reads_as_missing (s : state) (prop : string) (v : prim) :
  person s !! prop = Some v →
  proxy_get personProxy2 prop s
  = Some (Return PUndef,
          State (person s)
            (console s ++
               [if to_boolean v
                then "The value of " +:+ prop +:+ " is " +:+ to_string v
                else "This property dose't exist in objext"])) ∧
  (to_boolean v = false →
   ∀ missing, person s !! missing = None → inherited missing = PUndef →
     proxy_get personProxy2 missing s = proxy_get personProxy2 prop s).
Proof.
  intros Hv. rewrite personProxy2_get_cases.
  rewrite (member_own _ _ _ Hv). split; [reflexivity|].
  intros Hf missing Hm Hi. rewrite personProxy2_get_cases.
  unfold member. rewrite Hm, Hi, Hf. reflexivity.
Qed.

(** [personProxy2.age] with [age] holding 0, and with [age] holding 42. *)
Lemma falsy_reads_as_missing_witness :
  proxy_get personProxy2 "age"
    (State (<["age" := PNum 0]> (person initial)) [])
  = Some (Return PUndef,
          State (<["age" := PNum 0]> (person initial))
            ["This property dose't exist in objext"]) ∧
  proxy_get personProxy2 "age" initial
  = Some (Return PUndef,
          State (person initial) ["The value of age is 42"]) ∧
  proxy_get personProxy2 "nonExistentProperty"
    (State (<["age" := PNum 0]> (person initial)) [])
  = proxy_get personProxy2 "age"
      (State (<["age" := PNum 0]> (person initial)) []).
Proof.
  assert (person (State (<["age" := PNum 0]> (person initial)) []) !! "age"
          = Some (PNum 0)) as H0 by (vm_compute; reflexivity).
  assert (person initial !! "age" = Some (PNum 42)) as H42
    by (vm_compute; reflexivity).
  assert (person (State (<["age" := PNum 0]> (person initial)) [])
            !! "nonExistentProperty" = None) as Hm
    by (vm_compute; reflexivity).
  assert (inherited "nonExistentProperty" = PUndef) as Hi
    by (vm_compute; reflexivity).
  split; [|split].
  - exact (proj1 (falsy_reads_as_missing _ "age" (PNum 0) H0)).
  - pose proof (proj1 (falsy_reads_as_missing initial "age" (PNum 42) H42))
      as H.
    rewrite H. vm_compute. reflexivity.
  - exact (proj2 (falsy_reads_as_missing _ "age" (PNum 0) H0) eq_refl
             "nonExistentProperty" Hm Hi).
Defined.

(** C10.  The [get] traps of [personProxy1] and [personProxy2] return
    nothing: whatever the property name and whatever the target holds,
    a read through either proxy completes normally with undefined and
    leaves the target as it was. *)
Theorem interceptor_reads_undefined (s : state) (prop : string) :
  (∃ msg, proxy_get personProxy1 prop s
          = Some (Return PUndef, State (person s) (console s ++ [msg]))) ∧
  (∃ msg, proxy_get personProxy2 prop s
          = Some (Return PUndef, State (person s) (console s ++ [msg]))).
Proof.
  split.
  - eexists. reflexivity.
  - rewrite personProxy2_get_cases. eexists. reflexivity.
Qed.

Example personProxy1_name :
  proxy_get personProxy1 "name" initial
  = Some (Return PUndef,
          State (person initial) ["The value of name is John Doe"]).
Proof. vm_compute. reflexivity. Qed.

(** Inherited members are members too: [personProxy2.toString] and
    [personProxy2.__proto__] print a value line. *)
Example personProxy2_inherited :
  console ∘ snd <$> (proxy_get personProxy2 "toString";;;
                     proxy_get personProxy2 "__proto__")%js initial
  = Some ["The value of toString is function toString() { [native code] }";
          "The value of __proto__ is [object Object]"].
Proof. vm_compute. reflexivity. Qed.

End ProxySpec.

(** ** Proxy: the traps beyond the claims *)

Module ProxyMore.
Import JS Proxy ProxyFacts.

(** X1.  [personProxy1] validates nothing: whatever the value, a write
    through it to a property other than [__proto__] completes normally,
    prints the change and stores the value in the target; the value is
    then what a read through the trap-less [personProxy] returns, and the
    other members of the target are as before. *)
Theorem proxy1_write_unvalidated (s : state) (prop : string) (v : prim) :
  prop ≠ "__proto__" →
  ∃ s',
    proxy_set false personProxy1 prop v s = Some (Return tt, s') ∧
    console s'
      = console s ++
          ["Changed " +:+ prop +:+ " from "
           +:+ to_string (member s prop)
           +:+ " to " +:+ to_string v] ∧
    proxy_get personProxy prop s' = Some (Return v, s') ∧
    ∀ other, other ≠ prop → person s' !! other = person s !! other.
Proof.
  intros Hp.
  exists (State (<[prop := v]> (person s))
            (console s ++
               ["Changed " +:+ prop +:+ " from "
                +:+ to_string (member s prop)
                +:+ " to " +:+ to_string v])).
  split; [|split; [reflexivity|split]].
  - unfold proxy_set. cbn [set personProxy1].
    unfold personProxy1_set, bind, read, console_log.
    cbn [person console]. by rewrite write_stores.
  - unfold proxy_get, read. cbn [get personProxy]. unfold member.
    cbn [person]. by rewrite lookup_insert_eq.
  - intros other Hne. cbn [person]. by rewrite lookup_insert_ne.
Qed.

(** Line 62: [personProxy1.age = 33] *)
Lemma proxy1_write_unvalidated_witness :
  "age" ≠ "__proto__" ∧
  ∃ s',
    proxy_set false personProxy1 "age" (PNum 33) initial
      = Some (Return tt, s') ∧
    console s' = ["Changed age from 42 to 33"] ∧
    proxy_get personProxy "age" s' = Some (Return (PNum 33), s').
Proof.
  assert ("age" ≠ "__proto__") as Hp by discriminate.
  split; [exact Hp|].
  destruct (proxy1_write_unvalidated initial "age" (PNum 33) Hp)
    as (s' & Hs & Hc & Hg & _).
  exists s'. split; [exact Hs|]. split; [|exact Hg].
  rewrite Hc. vm_compute. reflexivity.
Defined.

(** A Number beyond 2^53 prints the shortest digits that round to it. *)
Example proxy1_large_number :
  console ∘ snd <$> proxy_set false personProxy1 "age" (PNum (2 ^ 60)) initial
  = Some ["Changed age from 42 to 1152921504606847000"].
Proof. vm_compute. reflexivity. Qed.

(** A primitive assigned to [__proto__] reaches the inherited setter,
    which ignores it: the change is printed and nothing is stored. *)
Example proxy1_proto_write :
  proxy_set false personProxy1 "__proto__" (PStr "x") initial
  = Some (Return tt,
          State (person initial)
            ["Changed __proto__ from [object Object] to x"]).
Proof. vm_compute. reflexivity. Qed.

(** X2.  Through [personProxy2] a string written to [name] is refused
    when it has fewer than two UTF-16 code units (the target stays as it
    was and [Invalid name ] is printed) and stored otherwise; either way
    the write completes normally. *)
Theorem name_validation (s : state) (n : string) :
  proxy_set false personProxy2 "name" (PStr n) s
  = Some (Return tt,
          if (utf16_units n <? 2)%nat
          then State (person s) (console s ++ ["Invalid name "])
          else State (<["name" := PStr n]> (person s))
                 (console s ++
                    ["Changed name from "
                     +:+ to_string (default PUndef (person s !! "name"))
                     +:+ " to " +:+ n +:+ "."])).
Proof.
  rewrite personProxy2_set_cases.
  change (String.eqb "name" "age") with false.
  change (String.eqb "name" "name") with true.
  cbn [andb length_of less_than_2 to_string].
  rewrite write_stores by discriminate. rewrite member_name.
  destruct (Nat.ltb_spec (utf16_units n) 2) as [Hlt|Hge];
    destruct (Z.ltb_spec (Z.of_nat (utf16_units n)) 2);
    try lia; reflexivity.
Qed.

(** The one-character name [Ω] is refused, the two-character [Ωs]
    stored. *)
Example name_validation_omega :
  console ∘ snd <$> (proxy_set false personProxy2 "name" (PStr "Ω");;;
                     proxy_set false personProxy2 "name" (PStr "Ωs"))%js initial
  = Some ["Invalid name "; "Changed name from John Doe to Ωs."].
Proof. vm_compute. reflexivity. Qed.

(** X3.  Writing undefined or null to [name] through [personProxy2] makes
    the trap throw a TypeError (it reads [value.length]); nothing is
    printed and the target stays as it was. *)
Theorem name_nullish_throws (s : state) :
  (∃ msg, proxy_set false personProxy2 "name" PUndef s
          = Some (Throw (TypeError msg), s)) ∧
  (∃ msg, proxy_set false personProxy2 "name" PNull s
          = Some (Throw (TypeError msg), s)).
Proof.
  split; rewrite personProxy2_set_cases;
    change (String.eqb "name" "age") with false;
    change (String.eqb "name" "name") with true;
    cbn [andb length_of]; eauto.
Qed.

(** X4.  The name check looks at [value.length] only, so a number or a
    boolean written to [name] through [personProxy2] passes it and is
    stored. *)
Theorem name_non_string_stored (s : state) (v : prim) :
  String.eqb (typeof v) "number" || String.eqb (typeof v) "boolean" = true →
  ∃ s',
    proxy_set false personProxy2 "name" v s = Some (Return tt, s') ∧
    person s' = <["name" := v]> (person s).
Proof.
  intros Hv. rewrite personProxy2_set_cases.
  change (String.eqb "name" "age") with false.
  change (String.eqb "name" "name") with true.
  cbn [andb]. rewrite write_stores by discriminate.
  destruct v; try discriminate; cbn [length_of less_than_2]; eauto.
Qed.

Lemma name_non_string_stored_witness :
  String.eqb (typeof (PNum 7)) "number" || String.eqb (typeof (PNum 7)) "boolean" = true ∧
  ∃ s',
    proxy_set false personProxy2 "name" (PNum 7) initial = Some (Return tt, s') ∧
    person s' = <["name" := PNum 7]> (person initial).
Proof.
  split; [reflexivity|].
  apply (name_non_string_stored initial (PNum 7)). reflexivity.
Defined.

(** X5.  [personProxy2] checks [age] and [name] only: a write to any
    other property but [__proto__] completes normally and stores the
    value, whatever it is. *)
Theorem unchecked_property_stored (s : state) (prop : string) (v : prim) :
  prop ≠ "age" → prop ≠ "name" → prop ≠ "__proto__" →
  ∃ s',
    proxy_set false personProxy2 prop v s = Some (Return tt, s') ∧
    person s' = <[prop := v]> (person s).
Proof.
  intros Hage Hname Hp. rewrite personProxy2_set_cases.
  apply String.eqb_neq in Hage, Hname. rewrite Hage, Hname.
  cbn [andb]. rewrite write_stores by exact Hp. eauto.
Qed.

Lemma unchecked_property_stored_witness :
  "nationality" ≠ "age" ∧ "nationality" ≠ "name" ∧
  "nationality" ≠ "__proto__" ∧
  ∃ s',
    proxy_set false personProxy2 "nationality" PUndef initial
      = Some (Return tt, s') ∧
    person s' = <["nationality" := PUndef]> (person initial).
Proof.
  assert ("nationality" ≠ "age") as H1 by discriminate.
  assert ("nationality" ≠ "name") as H2 by discriminate.
  assert ("nationality" ≠ "__proto__") as H3 by discriminate.
  split; [exact H1|]. split; [exact H2|]. split; [exact H3|].
  exact (unchecked_property_stored initial "nationality" PUndef H1 H2 H3).
Defined.

Lemma step2_get_person prop s : person (step2 (OpGet prop) s) = person s.
Proof. cbn [step2]. by rewrite personProxy2_get_cases. Qed.




(** The same in code units, which is what the trap checks. *)
Lemma step2_keeps_units o s :
  name_two_units s = true → name_two_units (step2 o s) = true.
Proof.
  intros Hn. destruct o as [prop|prop v].
  - unfold name_two_units in *. by rewrite step2_get_person.
  - cbn [step2]. rewrite personProxy2_set_cases.
    destruct (String.eqb prop "age" && negb (String.eqb (typeof v) "number"));
      [exact Hn|].
    cbn zeta. destruct (String.eqb_spec prop "name") as [->|Hname].
    + rewrite write_stores by discriminate.
      destruct (length_of v) as [n|e] eqn:Hl; [|exact Hn].
      destruct (less_than_2 n) eqn:Hlt; [exact Hn|].
      unfold name_two_units. cbn [person]. rewrite lookup_insert_eq.
      destruct v as [| |b|z| |str|nat|]; try reflexivity.
      cbn [length_of] in Hl. injection Hl as <-. cbn [less_than_2] in Hlt.
      apply Z.ltb_ge in Hlt. apply Nat.leb_le. lia.
    + destruct (write_cases prop v
                  (State (person s)
                     (console s ++
                        ["Changed " +:+ prop +:+ " from "
                         +:+ to_string (member s prop)
                         +:+ " to " +:+ to_string v +:+ "."])))
        as [->|[->| ->]]; [exact Hn|exact Hn|].
      unfold name_two_units in *. cbn [person].
      by rewrite lookup_insert_ne by congruence.
Qed.

Lemma validation_invariant_units (os : list op) (s : state) :
  name_two_units s = true → name_two_units (run2 os s) = true.
Proof.
  revert s. induction os as [|o os IH]; intros s Hn; [exact Hn|].
  cbn [run2 fold_left]. apply IH. by apply step2_keeps_units.
Qed.

(** X7.  Neither [set] trap returns a value.  In strict code a write
    through [personProxy1] to a property other than [__proto__] therefore
    raises a TypeError although the value has been stored, and such a
    write through [personProxy2], stored or refused, raises an error. *)
Theorem strict_writes_throw (s : state) (prop : string) (v : prim) :
  prop ≠ "__proto__" →
  (∃ msg s',
     proxy_set true personProxy1 prop v s = Some (Throw (TypeError msg), s') ∧
     person s' = <[prop := v]> (person s)) ∧
  (∃ e s', proxy_set true personProxy2 prop v s = Some (Throw e, s')).
Proof.
  intros Hp. split.
  - unfold proxy_set. cbn [set personProxy1].
    unfold personProxy1_set, bind, read, console_log.
    cbn [person console]. rewrite write_stores by exact Hp.
    do 2 eexists. split; reflexivity.
  - unfold proxy_set. cbn [set personProxy2]. unfold personProxy2_set, bind.
    destruct (String.eqb prop "age" && negb (String.eqb (typeof v) "number"));
      [cbn; eauto|].
    destruct (String.eqb prop "name").
    + destruct (length_of v) as [n|e]; [|cbn; eauto].
      cbn [ret]. destruct (less_than_2 n); [cbn; eauto|].
      unfold read, console_log. cbn [person console].
      rewrite write_stores by exact Hp. cbn. eauto.
    + cbn [ret]. unfold read, console_log. cbn [person console].
      rewrite write_stores by exact Hp. cbn. eauto.
Qed.

(** [personProxy1.age = 33] and [personProxy2.age = 33] in strict code *)
Lemma strict_writes_throw_witness :
  "age" ≠ "__proto__" ∧
  (∃ msg s',
     proxy_set true personProxy1 "age" (PNum 33) initial
       = Some (Throw (TypeError msg), s') ∧
     person s' = <["age" := PNum 33]> (person initial)) ∧
  (∃ e s', proxy_set true personProxy2 "age" (PNum 33) initial
           = Some (Throw e, s')).
Proof.
  assert ("age" ≠ "__proto__") as Hp by discriminate.
  split; [exact Hp|].
  exact (strict_writes_throw initial "age" (PNum 33) Hp).
Defined.

(** X8.  A read through [personProxy2] prints exactly one line and leaves
    the target as it was; the line is the missing-property report exactly
    when the member read, own or inherited, is absent or falsy, and
    otherwise names the property and its value. *)
Theorem get_report (s : state) (prop : string) :
  ∃ msg,
    proxy_get personProxy2 prop s
      = Some (Return PUndef, State (person s) (console s ++ [msg])) ∧
    (msg = missing_report ↔ to_boolean (member s prop) = false) ∧
    (msg ≠ missing_report →
     msg = "The value of " +:+ prop +:+ " is "
           +:+ to_string (member s prop)).
Proof.
  rewrite personProxy2_get_cases.
  destruct (to_boolean (member s prop)) eqn:Hb.
  - eexists. split; [reflexivity|]. split; [|done].
    split; [discriminate|discriminate].
  - exists missing_report. split; [reflexivity|]. split; [done|done].
Qed.

End ProxyMore.

(** ** Prototype: construction and the reach of a mutation *)

Module PrototypeMore.
Import JS JSFacts Prototype.

(** X9.  A member written to a behaviour table is seen only through
    objects that delegate to it: for an object whose chain does not meet
    the table, every member reads after the write what it read before. *)
Theorem prototype_mutation_frame (s : state) (p b : loc) (m : string)
    (v : value) (h' : list obj) :
  Put (heap s) p m v = Some (true, h') →
  reaches (depth (heap s)) (heap s) b p = false →
  ∀ k, Get h' b k = Get (heap s) b k.
Proof.
  intros HPut Hr k. by apply (Get_Put_frame _ _ _ _ _ _ b k HPut Hr).
Qed.

(** Line 74 and [Dog1.prototype], which stays without [play]. *)
Lemma prototype_mutation_frame_witness :
  Put (heap dogs_state) (Dog_prototype named) "play" (VFun play)
    = Some (true, heap play_state) ∧
  reaches (depth (heap dogs_state)) (heap dogs_state)
    (Dog1_prototype named) (Dog_prototype named) = false ∧
  Get (heap play_state) (Dog1_prototype named) "play" = Some VUndef.
Proof.
  assert (Put (heap dogs_state) (Dog_prototype named) "play" (VFun play)
          = Some (true, heap play_state)) as HPut
    by (vm_compute; reflexivity).
  assert (reaches (depth (heap dogs_state)) (heap dogs_state)
            (Dog1_prototype named) (Dog_prototype named) = false) as Hr
    by reflexivity.
  split; [exact HPut|]. split; [exact Hr|].
  rewrite (prototype_mutation_frame dogs_state _ _ _ _ _ HPut Hr "play").
  reflexivity.
Defined.

(** X10.  In an ordered arena [Object.create(p)] returns a new object
    whose prototype is [p] and which reads every member as [p] does
    ([__proto__] apart, which reads each object's own prototype); the
    objects that existed read what they read before. *)
Theorem Object_create_delegates (s : state) (p : loc) :
  orderedb (heap s) = true → (p < length (heap s))%nat →
  ∃ s',
    Object_create p s = Some (Return (length (heap s)), s') ∧
    console s' = console s ∧
    prototype_of (heap s') (length (heap s)) = VObj p ∧
    (∀ k, k ≠ "__proto__" →
       Get (heap s') (length (heap s)) k = Get (heap s) p k) ∧
    (∀ l k, (l < length (heap s))%nat → Get (heap s') l k = Get (heap s) l k).
Proof.
  intros Hord%orderedb_ordered Hp. eexists. split; [reflexivity|].
  split; [reflexivity|]. cbn [heap]. split; [|split].
  - unfold prototype_of.
    by rewrite (list_lookup_middle (heap s) [] _ (length (heap s)) eq_refl).
  - intros k Hk. rewrite Get_alloc_new by assumption. by rewrite lookup_empty.
  - intros l k Hl. by apply Get_alloc_old.
Qed.

(** Lines 116-131: [pet1] reads [bark] as [dog] does. *)
Lemma Object_create_delegates_witness :
  orderedb (heap final_state) = true ∧
  (dog named < length (heap final_state))%nat ∧
  ∃ s',
    Object_create (dog named) final_state
      = Some (Return (length (heap final_state)), s') ∧
    Get (heap s') (length (heap final_state)) "bark" = Some (VFun dog_bark).
Proof.
  assert (orderedb (heap final_state) = true) as Ho by reflexivity.
  assert (dog named < length (heap final_state))%nat as Hl
    by (vm_compute; lia).
  split; [exact Ho|]. split; [exact Hl|].
  destruct (Object_create_delegates final_state (dog named) Ho Hl)
    as (s' & Hc & _ & _ & HG & _).
  exists s'. split; [exact Hc|]. rewrite HG by discriminate. reflexivity.
Defined.

Lemma new_Dog_heap (s : state) (p : loc) (v : value) :
  ordered (heap s) → (p < length (heap s))%nat →
  writable_from (depth (heap s)) (heap s) p "name" = Some true →
  new p Dog_constructor v s
  = Some (Return (length (heap s)),
          State (heap s ++ [fresh_obj {["name" := v]} (Some p)]) (console s)).
Proof.
  intros Hord Hp Hw.
  pose proof (lookup_prop_total (heap s) p "name" Hord Hp) as [r Hr].
  pose proof (lookup_prop_alloc_new (heap s) ∅ p "name" Hord Hp) as Hnew.
  rewrite lookup_empty, Hr in Hnew.
  unfold new, bind, allocate, alloc, Dog_constructor, set_member, assign, Put.
  cbn [heap console]. rewrite Hnew. cbn [mbind option_bind].
  rewrite (list_lookup_middle (heap s) [] _ (length (heap s)) eq_refl).
  cbn [mbind option_bind].
  assert (Put_data (heap s ++ [fresh_obj ∅ (Some p)]) (length (heap s)) "name" v
          = Some (true, heap s ++ [fresh_obj {["name" := v]} (Some p)])) as Hd.
  { unfold Put_data, depth in *. rewrite length_app, Nat.add_1_r.
    set (n := S (length (heap s))) in *. cbn [writable_from].
    rewrite (list_lookup_middle (heap s) [] _ (length (heap s)) eq_refl).
    cbn [props proto fresh_obj]. rewrite lookup_empty.
    rewrite writable_from_alloc by assumption. rewrite Hw.
    cbn. rewrite lookup_empty.
    rewrite insert_app_r_alt by lia. rewrite Nat.sub_diag. reflexivity. }
  destruct r as [v'|]; [|by rewrite Hd].
  rewrite is_accessor_other by discriminate. by rewrite Hd.
Qed.

(** X11.  In an ordered arena where no ancestor of the class holds a
    read-only [name], [new] with the constructor of [Dog] returns a new
    object whose prototype is the class's behaviour table, whose [name] is
    the argument and whose other members read as the table reads them
    ([__proto__] apart, which reads each object's own prototype); the
    objects that existed read what they read before. *)
Theorem new_Dog_instance (s : state) (p : loc) (v : value) :
  orderedb (heap s) = true → (p < length (heap s))%nat →
  writable_from (depth (heap s)) (heap s) p "name" = Some true →
  ∃ s',
    new p Dog_constructor v s = Some (Return (length (heap s)), s') ∧
    prototype_of (heap s') (length (heap s)) = VObj p ∧
    Get (heap s') (length (heap s)) "name" = Some v ∧
    (∀ k, k ≠ "name" → k ≠ "__proto__" →
       Get (heap s') (length (heap s)) k = Get (heap s) p k) ∧
    (∀ l k, (l < length (heap s))%nat → Get (heap s') l k = Get (heap s) l k).
Proof.
  intros Hord%orderedb_ordered Hp Hw. eexists.
  split; [by apply new_Dog_heap|]. cbn [heap]. split; [|split; [|split]].
  - unfold prototype_of.
    by rewrite (list_lookup_middle (heap s) [] _ (length (heap s)) eq_refl).
  - rewrite Get_alloc_new by (assumption || discriminate).
    by rewrite lookup_singleton_eq.
  - intros k Hk Hk'. rewrite Get_alloc_new by assumption.
    by rewrite lookup_singleton_ne.
  - intros l k Hl. by apply Get_alloc_old.
Qed.

(** One more dog after the script: it has its name and barks, and
    [dog1] keeps its own name. *)
Lemma new_Dog_instance_witness :
  orderedb (heap final_state) = true ∧
  (Dog_prototype named < length (heap final_state))%nat ∧
  writable_from (depth (heap final_state)) (heap final_state)
    (Dog_prototype named) "name" = Some true ∧
  ∃ s',
    new (Dog_prototype named) Dog_constructor (VStr "Rex") final_state
      = Some (Return (length (heap final_state)), s') ∧
    Get (heap s') (length (heap final_state)) "name" = Some (VStr "Rex") ∧
    Get (heap s') (length (heap final_state)) "bark" = Some (VFun Dog_bark) ∧
    Get (heap s') (dog1 named) "name" = Some (VStr "Daisy").
Proof.
  assert (orderedb (heap final_state) = true) as Ho by reflexivity.
  assert (Dog_prototype named < length (heap final_state))%nat as Hl
    by (vm_compute; lia).
  assert (writable_from (depth (heap final_state)) (heap final_state)
            (Dog_prototype named) "name" = Some true) as Hw by reflexivity.
  split; [exact Ho|]. split; [exact Hl|]. split; [exact Hw|].
  destruct (new_Dog_instance final_state (Dog_prototype named) (VStr "Rex")
              Ho Hl Hw) as (s' & Hn & _ & Hname & Hrest & Hold).
  exists s'. split; [exact Hn|]. split; [exact Hname|]. split.
  - rewrite Hrest by discriminate. reflexivity.
  - rewrite Hold by (vm_compute; lia). reflexivity.
Defined.

(** X12.  A method that an assignment stores in a behaviour table (as it
    does under any name but [__proto__]) is what every object reads whose
    chain meets the table before any owner of that member name, at
    whatever distance: instances of the class and of the classes that
    extend it alike.  Invoking the member on such an object runs the
    added function. *)
Theorem transitive_sharing (s : state) (p b : loc) (m : string) (f : func)
    (h' : list obj) :
  Put (heap s) p m (VFun f) = Some (true, h') →
  inherits (depth (heap s)) (heap s) b p m = true →
  Get h' b m = Some (VFun f) ∧
  invoke b m (State h' (console s)) = Some (call f (State h' (console s))).
Proof.
  intros HPut Hi.
  pose proof (Get_Put_inherits _ _ _ _ _ b HPut Hi) as HG.
  split; [exact HG|]. unfold invoke. cbn [heap]. by rewrite HG.
Qed.

(** An assignment to [__proto__] adds no member: it reaches the accessor
    of [Object.prototype], which gives the table another prototype.
    After [Dog.prototype.__proto__ = dog] the table still holds [bark] and
    [play] alone besides its [constructor], [dog1.__proto__] is the table
    and no function, and [dog1.__proto__()] is a TypeError. *)
Example table_reparented :
  ∃ s',
    set_member false (Dog_prototype named) "__proto__" (VObj (dog named))
      final_state = Some (Return tt, s') ∧
    prototype_of (heap s') (Dog_prototype named) = VObj (dog named) ∧
    (props <$> heap s' !! Dog_prototype named)
    = (props <$> heap final_state !! Dog_prototype named) ∧
    Get (heap s') (dog1 named) "__proto__" = Some (VObj (Dog_prototype named)) ∧
    invoke (dog1 named) "__proto__" s'
    = Some (Throw (TypeError "__proto__ is not a function"), s').
Proof. eexists. repeat split; vm_compute; reflexivity. Qed.

(** [Dog.prototype.fetch = ...] after the script: [dog7], a [SuperDog],
    can fetch. *)
Lemma transitive_sharing_witness :
  Put (heap final_state) (Dog_prototype named) "fetch" (VFun play)
    = Some (true, heap fetch_state) ∧
  inherits (depth (heap final_state)) (heap final_state)
    (dog7 named) (Dog_prototype named) "fetch" = true ∧
  invoke (dog7 named) "fetch" fetch_state
    = Some (Return VUndef, console_log "Playing now!" fetch_state).
Proof.
  assert (Put (heap final_state) (Dog_prototype named) "fetch" (VFun play)
          = Some (true, heap fetch_state)) as HPut
    by (vm_compute; reflexivity).
  assert (inherits (depth (heap final_state)) (heap final_state)
            (dog7 named) (Dog_prototype named) "fetch" = true) as Hi
    by reflexivity.
  split; [exact HPut|]. split; [exact Hi|].
  exact (proj2 (transitive_sharing final_state _ _ _ _ _ HPut Hi)).
Defined.

End PrototypeMore.

(** ** Singleton: counting, the second counter and what freezing leaves open *)

Module SingletonMore.
Import JS JSFacts Singleton SingletonSpec.

Lemma set_counter_twice c1 c2 s :
  set_counter c2 (set_counter c1 s) = set_counter c2 s.
Proof. reflexivity. Qed.

Lemma invoke_increment Counterp sc s :
  handle_world Counterp sc s → counter s < max_counter →
  invoke sc "increment" s
  = Some (Return (VNum (counter s + 1)), set_counter (counter s + 1) s).
Proof.
  intros W Hc. pose proof (world_counter _ _ _ W) as Hr.
  rewrite (world_invoke_method _ _ _ W "increment" Counter_increment eq_refl).
  cbn [call]. by rewrite round_double_exact by lia.
Qed.

Lemma invoke_decrement Counterp sc s :
  handle_world Counterp sc s → - max_counter < counter s →
  invoke sc "decrement" s
  = Some (Return (VNum (counter s - 1)), set_counter (counter s - 1) s).
Proof.
  intros W Hc. pose proof (world_counter _ _ _ W) as Hr.
  rewrite (world_invoke_method _ _ _ W "decrement" Counter_decrement eq_refl).
  cbn [call]. by rewrite round_double_exact by lia.
Qed.

Lemma world_set_counter Counterp sc s c :
  handle_world Counterp sc s → - max_counter ≤ c ≤ max_counter →
  handle_world Counterp sc (set_counter c s).
Proof. intros [Ho Hi Hsc Hcp _] Hc. by split. Qed.

(** X13.  From line 175 on, while the counter is strictly between -2^53
    and 2^53, [increment()] followed by [decrement()] returns the value
    the counter had and restores the whole state, and so does
    [decrement()] followed by [increment()]. *)
Theorem increment_decrement_round_trip (Counterp sc : loc) (s : state) :
  handle_world Counterp sc s →
  - max_counter < counter s < max_counter →
  (invoke sc "increment";;; invoke sc "decrement")%js s
    = Some (Return (VNum (counter s)), s) ∧
  (invoke sc "decrement";;; invoke sc "increment")%js s
    = Some (Return (VNum (counter s)), s).
Proof.
  intros W Hc. pose proof (world_counter _ _ _ W) as Hr. split; unfold bind.
  - rewrite (invoke_increment _ _ _ W) by lia.
    rewrite (invoke_decrement Counterp)
      by (try apply world_set_counter; cbn; (assumption || lia)).
    cbn [counter set_counter]. rewrite set_counter_twice.
    replace (counter s + 1 - 1) with (counter s) by lia.
    by rewrite set_counter_same.
  - rewrite (invoke_decrement _ _ _ W) by lia.
    rewrite (invoke_increment Counterp)
      by (try apply world_set_counter; cbn; (assumption || lia)).
    cbn [counter set_counter]. rewrite set_counter_twice.
    replace (counter s - 1 + 1) with (counter s) by lia.
    by rewrite set_counter_same.
Qed.

Lemma increment_decrement_round_trip_witness :
  handle_world (Counter_prototype named) (singletonCounter named) final_state ∧
  - max_counter < counter final_state < max_counter ∧
  (invoke (singletonCounter named) "increment";;;
   invoke (singletonCounter named) "decrement")%js final_state
    = Some (Return (VNum (-1)), final_state).
Proof.
  assert (handle_world (Counter_prototype named) (singletonCounter named)
            final_state) as W
    by (split; try reflexivity; by vm_compute).
  assert (- max_counter < counter final_state < max_counter) as Hc
    by (by vm_compute).
  split; [exact W|]. split; [exact Hc|].
  exact (proj1 (increment_decrement_round_trip _ _ _ W Hc)).
Defined.

(** X14.  From line 175 on, a run of [increment()] and [decrement()]
    calls that cannot take the counter beyond 2^53 in magnitude leaves it
    at its old value plus the number of increments minus the number of
    decrements, and changes nothing else. *)
Theorem counter_tally (Counterp sc : loc) (bs : list bool) (s : state) :
  handle_world Counterp sc s →
  Z.abs (counter s) + Z.of_nat (length bs) ≤ max_counter →
  steps Counterp sc (presses bs) s = Some (set_counter (counter s + net bs) s).
Proof.
  revert s. induction bs as [|b bs IH]; intros s W Hc.
  - cbn. rewrite Z.add_0_r. by rewrite set_counter_same.
  - pose proof (world_counter _ _ _ W) as Hr. cbn [length] in Hc.
    cbn [presses map steps step]. fold (presses bs). destruct b.
    + rewrite (invoke_increment _ _ _ W) by lia. cbn [fmap option_fmap option_map snd].
      rewrite IH by (try apply world_set_counter; cbn; (assumption || lia)).
      cbn [counter set_counter net]. rewrite set_counter_twice.
      f_equal. f_equal. lia.
    + rewrite (invoke_decrement _ _ _ W) by lia. cbn [fmap option_fmap option_map snd].
      rewrite IH by (try apply world_set_counter; cbn; (assumption || lia)).
      cbn [counter set_counter net]. rewrite set_counter_twice.
      f_equal. f_equal. lia.
Qed.

Lemma counter_tally_witness :
  handle_world (Counter_prototype named) (singletonCounter named) final_state ∧
  Z.abs (counter final_state) + Z.of_nat (length [true; true; false; true])
    ≤ max_counter ∧
  steps (Counter_prototype named) (singletonCounter named)
    (presses [true; true; false; true]) final_state
    = Some (set_counter 1 final_state).
Proof.
  assert (handle_world (Counter_prototype named) (singletonCounter named)
            final_state) as W
    by (split; try reflexivity; by vm_compute).
  assert (Z.abs (counter final_state)
          + Z.of_nat (length [true; true; false; true]) ≤ max_counter) as Hc
    by (by vm_compute).
  split; [exact W|]. split; [exact Hc|].
  exact (counter_tally _ _ [true; true; false; true] _ W Hc).
Defined.

(** X15.  [n] calls of [increment] in a row raise a counter that lies
    between -2^53 and 2^53 by [n], but not beyond 2^53: once [n] covers
    the distance to 2^53 the counter is 2^53 however many more calls
    follow.  Nothing else changes. *)
Theorem increments_saturate (n : N) (s : state) :
  - max_counter ≤ counter s ≤ max_counter →
  increments n s = set_counter (Z.min (counter s + Z.of_N n) max_counter) s ∧
  (max_counter - counter s ≤ Z.of_N n →
   counter (increments n s) = max_counter).
Proof.
  intros Hc.
  assert (increments n s
          = set_counter (Z.min (counter s + Z.of_N n) max_counter) s) as Heq.
  { unfold increments. induction n as [|n IH] using N.peano_ind.
    - cbn [N.iter]. rewrite Z.min_l by lia.
      replace (counter s + Z.of_N 0) with (counter s) by lia.
      by rewrite set_counter_same.
    - rewrite N.iter_succ, IH. cbn [call snd set_counter counter].
      rewrite round_double_succ by (cbn; lia).
      unfold set_counter. cbn. f_equal. lia. }
  split; [exact Heq|].
  intros Hn. rewrite Heq. cbn [counter set_counter]. lia.
Qed.

Lemma increments_saturate_witness :
  - max_counter ≤ counter final_state ≤ max_counter ∧
  increments 5 final_state = set_counter 4 final_state.
Proof.
  assert (- max_counter ≤ counter final_state ≤ max_counter) as Hc
    by (by vm_compute).
  split; [exact Hc|].
  exact (proj1 (increments_saturate 5 final_state Hc)).
Defined.

Section NewCounter.
Context (nc : loc) (s : state).
Hypothesis W : newCounter_world nc s.

Lemma newCounter_lookup k :
  lookup_prop (heap s) nc k
  = Some (match newCounter_methods !! k with
          | Some v => Some v
          | None => Object_prototype_members !! k
          end).
Proof.
  destruct W as [_ Hnc Hroot _].
  assert (lookup_from 2 (heap s) nc k
          = Some (match newCounter_methods !! k with
                  | Some v => Some v
                  | None => Object_prototype_members !! k
                  end)) as H2.
  { cbn [lookup_from]. rewrite Hnc. cbn [props proto].
    destruct (newCounter_methods !! k); [reflexivity|].
    rewrite Hroot. cbn [props proto fresh_obj].
    by destruct (Object_prototype_members !! k). }
  unfold lookup_prop, depth. pose proof (lookup_lt_Some _ _ _ Hnc).
  by rewrite (lookup_from_mono _ (S (length (heap s))) _ _ _ _ H2) by lia.
Qed.

Lemma newCounter_invoke_method k f :
  newCounter_methods !! k = Some (VFun f) → invoke nc k s = Some (call f s).
Proof.
  intros Hk. unfold invoke, Get. rewrite newCounter_lookup, Hk.
  by rewrite is_accessor_fun.
Qed.

End NewCounter.

(** X16.  From line 239 on, [newCounter] has no [decrement]: calling it
    is a TypeError that changes nothing.  Its [descrement()] and
    [increment()] move and return [count] (by one, except at the bounds
    -2^53 and 2^53, where it stays) and leave [counter] and everything
    else alone.  The object being frozen, a sloppy-mode assignment to any
    member but [__proto__] is dropped without an error, while
    [newCounter.__proto__ = null] raises a TypeError; the state stays as
    it was in both cases. *)
Theorem newCounter_members (nc : loc) (s : state) :
  newCounter_world nc s →
  invoke nc "decrement" s
    = Some (Throw (TypeError "decrement is not a function"), s) ∧
  invoke nc "descrement" s
    = Some (Return (VNum (if count s =? - max_counter
                          then count s else count s - 1)),
            set_count (if count s =? - max_counter
                       then count s else count s - 1) s) ∧
  invoke nc "increment" s
    = Some (Return (VNum (if count s =? max_counter
                          then count s else count s + 1)),
            set_count (if count s =? max_counter
                       then count s else count s + 1) s) ∧
  (∀ k v, k ≠ "__proto__" → set_member false nc k v s = Some (Return tt, s)) ∧
  (∃ msg, set_member false nc "__proto__" VNull s
          = Some (Throw (TypeError msg), s)).
Proof.
  intros W. pose proof (nc_count _ _ W) as Hc.
  split; [|split; [|split; [|split]]].
  - unfold invoke, Get. by rewrite (newCounter_lookup _ _ W).
  - rewrite (newCounter_invoke_method _ _ W "descrement" newCounter_descrement eq_refl).
    cbn [call]. rewrite round_double_pred by exact Hc.
    destruct (Z.eqb_spec (count s) (- max_counter)) as [->|Hne].
    + by rewrite Z.max_r by lia.
    + by rewrite Z.max_l by lia.
  - rewrite (newCounter_invoke_method _ _ W "increment" newCounter_increment eq_refl).
    cbn [call]. rewrite round_double_succ by exact Hc.
    destruct (Z.eqb_spec (count s) max_counter) as [->|Hne].
    + by rewrite Z.min_r by lia.
    + by rewrite Z.min_l by lia.
  - intros k v Hk. destruct W as [Ho Hnc _ _]. unfold set_member, assign.
    rewrite (Put_frozen _ _ _ k v (orderedb_ordered _ Ho) Hnc eq_refl eq_refl)
      by (by apply meets_accessor_other).
    rewrite meets_accessor_other by exact Hk. by rewrite set_heap_same.
  - assert (lookup_prop (heap s) nc "__proto__"
            = Some (Some (VNative N_proto))) as Hl
      by (rewrite (newCounter_lookup _ _ W); reflexivity).
    destruct W as [Ho Hnc _ _]. unfold set_member, assign, Put, meets_accessor.
    rewrite Hl. cbn [mbind option_bind]. rewrite Hnc.
    cbn [mbind option_bind is_accessor String.eqb Ascii.eqb Bool.eqb andb].
    unfold Put_accessor, Put_proto. cbn [proto extensible negb orb].
    destruct (decide (Some Object_prototype = None)) as [Hd|_]; [discriminate Hd|].
    cbn [orb]. rewrite set_heap_same. eauto.
Qed.

Lemma newCounter_members_witness :
  newCounter_world (newCounter named) final_state ∧
  invoke (newCounter named) "decrement" final_state
    = Some (Throw (TypeError "decrement is not a function"), final_state) ∧
  invoke (newCounter named) "descrement" final_state
    = Some (Return (VNum (-1)), set_count (-1) final_state).
Proof.
  assert (newCounter_world (newCounter named) final_state) as W.
  { split; try (vm_compute; reflexivity). by vm_compute. }
  destruct (newCounter_members _ _ W) as (Hd & Hdes & _).
  split; [exact W|]. split; [exact Hd|exact Hdes].
Defined.

(** X17.  Freezing the handle does not freeze the class: from line 175
    on, an assignment to a method of [Counter.prototype] takes place, and
    the handle then runs the function assigned instead of the method the
    class declared. *)
Theorem prototype_left_open (Counterp sc : loc) (s : state) (m : string)
    (f g : func) :
  handle_world Counterp sc s →
  Counter_methods !! m = Some (VFun f) →
  ∃ s',
    set_member false Counterp m (VFun g) s = Some (Return tt, s') ∧
    invoke sc m s' = Some (call g s').
Proof.
  intros W Hm. pose proof W as [Ho Hi Hsc Hcp Hc].
  pose proof (lookup_lt_Some _ _ _ Hsc) as Lsc.
  pose proof (lookup_lt_Some _ _ _ Hcp) as Lcp.
  assert (Put (heap s) Counterp m (VFun g)
          = Some (true, <[Counterp := set_own m (VFun g)
                            (fresh_obj Counter_methods (Some Object_prototype))]>
                          (heap s))) as HPut.
  { assert (lookup_prop (heap s) Counterp m = Some (Some (VFun f))) as Hl.
    { unfold lookup_prop, depth. cbn [lookup_from]. rewrite Hcp.
      cbn [props fresh_obj]. by rewrite Hm. }
    unfold Put. rewrite Hl. cbn [mbind option_bind]. rewrite Hcp.
    cbn [mbind option_bind]. rewrite is_accessor_fun.
    unfold Put_data, depth. cbn [writable_from]. rewrite Hcp.
    cbn [props fresh_obj]. rewrite Hm. cbn. by rewrite Hm. }
  assert (sc ≠ Counterp) as Hne.
  { intros ->. rewrite Hsc in Hcp. discriminate. }
  assert (inherits (depth (heap s)) (heap s) sc Counterp m = true) as Hin.
  { unfold depth. destruct (length (heap s)) as [|n]; [lia|].
    cbn [inherits]. apply Nat.eqb_neq in Hne. rewrite Hne, Hsc.
    cbn [props proto]. rewrite lookup_empty. by rewrite Nat.eqb_refl. }
  eexists. split.
  - unfold set_member, assign. rewrite HPut. reflexivity.
  - unfold invoke. cbn [heap set_heap].
    by rewrite (Get_Put_inherits _ _ _ _ _ sc HPut Hin).
Qed.

(** [Counter.prototype.decrement = ...] with the arrow function of line
    177, after the script: [singletonCounter.decrement()] now prints and
    no longer counts. *)
Lemma prototype_left_open_witness :
  handle_world (Counter_prototype named) (singletonCounter named) final_state ∧
  set_member false (Counter_prototype named) "decrement"
    (VFun replacement_decrement) final_state
    = Some (Return tt, patched_state) ∧
  invoke (singletonCounter named) "decrement" patched_state
    = Some (Return VUndef, console_log "decrement function called" patched_state).
Proof.
  assert (handle_world (Counter_prototype named) (singletonCounter named)
            final_state) as W
    by (split; try reflexivity; by vm_compute).
  destruct (prototype_left_open _ _ _ "decrement" Counter_decrement
              replacement_decrement W eq_refl) as (s' & Hs & Hi).
  assert (set_member false (Counter_prototype named) "decrement"
            (VFun replacement_decrement) final_state
          = Some (Return tt, patched_state)) as Hp
    by (vm_compute; reflexivity).
  assert (s' = patched_state) as -> by congruence.
  split; [exact W|]. split; [exact Hp|exact Hi].
Defined.

(** X18.  In strict code the assignment of line 177 would not pass
    silently: from line 175 on, a strict-mode assignment to any member of
    the frozen handle but [__proto__] raises a TypeError, the state
    staying as it was. *)
Theorem strict_assignment_throws (Counterp sc : loc) (s : state)
    (k : string) (v : value) :
  handle_world Counterp sc s → k ≠ "__proto__" →
  ∃ msg, set_member true sc k v s = Some (Throw (TypeError msg), s).
Proof.
  intros [Ho _ Hsc _ _] Hk. unfold set_member, assign.
  rewrite (Put_frozen _ _ _ k v (orderedb_ordered _ Ho) Hsc eq_refl eq_refl)
    by (by apply meets_accessor_other).
  rewrite set_heap_same. eauto.
Qed.

Lemma strict_assignment_throws_witness :
  handle_world (Counter_prototype named) (singletonCounter named) handle_state ∧
  "decrement" ≠ "__proto__" ∧
  ∃ msg,
    set_member true (singletonCounter named) "decrement"
      (VFun replacement_decrement) handle_state
    = Some (Throw (TypeError msg), handle_state).
Proof.
  assert (handle_world (Counter_prototype named) (singletonCounter named)
            handle_state) as W
    by (split; try reflexivity; by vm_compute).
  assert ("decrement" ≠ "__proto__") as Hk by discriminate.
  split; [exact W|]. split; [exact Hk|].
  exact (strict_assignment_throws _ _ _ "decrement"
           (VFun replacement_decrement) W Hk).
Defined.

(** The setter of [__proto__] on the frozen handle: a primitive is
    ignored even in strict code, null is refused even in sloppy code. *)
Example handle_proto_assignments :
  set_member true (singletonCounter named) "__proto__" (VStr "x") handle_state
    = Some (Return tt, handle_state) ∧
  fst <$> set_member false (singletonCounter named) "__proto__" VNull handle_state
    = Some (Throw (TypeError "Cannot assign to read only property __proto__")).
Proof. split; reflexivity. Qed.

End SingletonMore.
